(** * Free-game mailer: a shallow embedding of [src/server.ts]

    The server polls a storefront feed, keeps the history of the games it
    has announced in a [GamesList] collection, keeps its subscribers in a
    [MailList] collection and mails them through a nodemailer transporter.

    The embedding follows the current revision of the file (the second
    one in the source listing: [curGame] returns [IGame | null]).

    - JavaScript strings are Rocq strings, one [ascii] per character.
    - The two collections and the messages handed to the transporter make
      up the [World]; every [await] of the source is a step of the monad
      [M], in which a thrown value leaves the world as it is at the throw.
    - A call to the database can be rejected (connection lost, timeout):
      the class [Store] says which calls of a request are. The theorems
      that do not bind a [Store] are about the store [reliable], which
      answers every call.
    - What the source takes from its runtime and its libraries (the [Date]
      parser and formatter, the transporter, validator.js, the text of a
      library error) is a method of the class [Runtime]. *)

From Stdlib Require Import String Ascii List ZArith Bool Arith Lia.
Import ListNotations.
Local Open Scope list_scope.
Local Open Scope string_scope.

(** ** Data *)

(** [interface IGame] *)
Record IGame : Type := mkGame {
  game : string;
  startDate : string;
  endDate : string
}.

(** What the server may find under the key [expiryDate] of a feed element
    ([elements : any[]]): nothing at all (reading it gives [undefined]),
    [null], or a string. *)
Inductive JsonField : Type :=
| Missing
| Null
| Str (s : string).

(** An element of [data.Catalog.searchStore.elements]: the three fields the
    server reads. *)
Record CatalogEntry : Type := mkEntry {
  title : string;
  effectiveDate : string;
  expiryDate : JsonField
}.

(** [class AppError extends Error], [statusCode = 500] by default. *)
Record AppError : Type := mkAppError {
  message : string;
  statusCode : nat
}.

Definition newAppError (msg : string) (code : option nat) : AppError :=
  mkAppError msg (match code with Some c => c | None => 500 end).

(** Errors raised by the libraries rather than by the server's own code. *)
Inductive LibError : Type :=
| RequiredPath (path : string)     (* mongoose ValidationError: path is required *)
| DuplicateKey (path : string)     (* MongoServerError E11000 on a unique index *)
| TransportError (reason : string) (* nodemailer *)
| FetchError                       (* fetch / response.json *)
| StoreError (reason : string).    (* a database call that is rejected *)

Inductive Thrown : Type :=
| ThrownApp (e : AppError)
| ThrownLib (e : LibError).

(** [interface IMailOptions]: [to : string | string[]]. *)
Inductive Recipients : Type :=
| Addr (s : string)
| Addrs (l : list string).

(** The object handed to [transporter.sendMail]. The computed key of the
    source is either [to] or [bcc]; the other one is absent. *)
Record MailOptions : Type := mkMailOptions {
  mo_from : string;
  mo_to : option string;
  mo_bcc : option string;
  mo_subject : string;
  mo_text : string;
  mo_html : string
}.

(** The [MailList] documents in insertion order (the order of [find()]),
    the [GamesList] documents newest first (the order of
    [sort({createdAt : -1})]), and every message handed to the transporter,
    oldest first. *)
Record World : Type := mkWorld {
  mailDB : list string;
  gameDB : list IGame;
  outbox : list MailOptions
}.

(** What a route handler leaves behind: a JSON response, an error passed to
    [next], or nothing at all (the request is never answered). *)
Inductive Body : Type :=
| BMsg (msg : string)
| BName (name : string)
| BError (error : string)
| BGamesDetail (gamesDetail : option IGame).

Inductive Reply : Type :=
| Json (status : nat) (body : Body)
| Next (err : AppError)
| NoReply.

(** ** The monad of the asynchronous code *)

Inductive Outcome (A : Type) : Type :=
| Ok (a : A)
| Throw (t : Thrown).
Arguments Ok {A} a.
Arguments Throw {A} t.

Definition M (A : Type) : Type := World -> Outcome A * World.

Definition ret {A} (a : A) : M A := fun w => (Ok a, w).

Definition throw {A} (t : Thrown) : M A := fun w => (Throw t, w).

Definition bind {A B} (c : M A) (k : A -> M B) : M B :=
  fun w =>
    match c w with
    | (Ok a, w') => k a w'
    | (Throw t, w') => (Throw t, w')
    end.

(** [try { c } catch (error) { h error }] *)
Definition try_catch {A} (c : M A) (h : Thrown -> M A) : M A :=
  fun w =>
    match c w with
    | (Ok a, w') => (Ok a, w')
    | (Throw t, w') => h t w'
    end.

Declare Scope js_scope.
Delimit Scope js_scope with js.
Notation "x <- c ;; k" := (bind c (fun x => k))
  (at level 61, c at next level, right associativity) : js_scope.
Notation "c ;;; k" := (bind c (fun _ => k))
  (at level 61, right associativity) : js_scope.
Local Open Scope js_scope.

(** ** JavaScript helpers *)

(** [Array.prototype.join] *)
Definition join (sep : string) (l : list string) : string := String.concat sep l.

(** [s || d] on a possibly undefined string: the empty string is falsy. *)
Definition or_else (s : option string) (d : string) : string :=
  match s with
  | None => d
  | Some v => if String.eqb v "" then d else v
  end.

(** A default parameter value replaces [undefined] only. *)
Definition default_param (s : option string) (d : string) : option string :=
  match s with
  | None => Some d
  | Some v => Some v
  end.

Definition nl : string := String (ascii_of_nat 10) EmptyString.

(** ** Schemas

    [game] and [startDate] of [gamesListSchema] and [email] of
    [mailListSchema] are [required : true]: mongoose rejects a missing or
    EMPTY string there. [game] and [email] are [unique : true]: the
    collection carries a unique index and an insert of a value that is
    already there is rejected. *)

Definition hasGame (t : string) (db : list IGame) : bool :=
  existsb (fun d => String.eqb (game d) t) db.

Definition hasMail (e : string) (db : list string) : bool :=
  existsb (String.eqb e) db.

Definition gameRejected (db : list IGame) (g : IGame) : option LibError :=
  if String.eqb (game g) "" then Some (RequiredPath "game")
  else if String.eqb (startDate g) "" then Some (RequiredPath "startDate")
  else if hasGame (game g) db then Some (DuplicateKey "game")
  else None.

Definition mailRejected (db : list string) (e : string) : option LibError :=
  if String.eqb e "" then Some (RequiredPath "email")
  else if hasMail e db then Some (DuplicateKey "email")
  else None.

(** ** The store

    Every call to a model is awaited inside the [try] of its handler, and
    the database may reject it for reasons of its own. A [Store] tells,
    for one request, which of its calls are rejected and why; a rejected
    call has no effect. No handler makes the same call twice. *)

Inductive StoreCall : Type :=
| FindMail
| SaveMail
| FindAllMails
| DeleteMail
| FindLatestGame
| SaveGame
| DeleteLatestGame.

Class Store : Type := {
  storeFault : StoreCall -> option string
}.

(** The store that answers every call. *)
Definition reliable : Store := {| storeFault := fun _ => None |}.

Fixpoint removeFirst (e : string) (l : list string) : list string :=
  match l with
  | [] => []
  | x :: r => if String.eqb e x then r else x :: removeFirst e r
  end.

Section StoreCalls.

Context {st : Store}.

(** [await] of a database call. *)
Definition awaitStore {A} (call : StoreCall) (answer : M A) : M A :=
  fun w =>
    match storeFault call with
    | Some reason => (Throw (ThrownLib (StoreError reason)), w)
    | None => answer w
    end.

(** [new gameList({...}).save()] *)
Definition saveGame (g : IGame) : M unit :=
  awaitStore SaveGame
    (fun w =>
       match gameRejected (gameDB w) g with
       | Some e => (Throw (ThrownLib e), w)
       | None => (Ok tt, mkWorld (mailDB w) (g :: gameDB w) (outbox w))
       end).

(** [new mailList({email}).save()] *)
Definition saveMail (e : string) : M unit :=
  awaitStore SaveMail
    (fun w =>
       match mailRejected (mailDB w) e with
       | Some err => (Throw (ThrownLib err), w)
       | None => (Ok tt, mkWorld (mailDB w ++ [e])%list (gameDB w) (outbox w))
       end).

(** [gameList.findOne({}).sort({createdAt : -1})] *)
Definition findLatestGame : M (option IGame) :=
  awaitStore FindLatestGame (fun w => (Ok (hd_error (gameDB w)), w)).

(** [mailList.findOne({email})] *)
Definition findMail (e : string) : M (option string) :=
  awaitStore FindMail (fun w => (Ok (find (String.eqb e) (mailDB w)), w)).

(** [mailList.find()] followed by [list.map(ele => ele.email)] *)
Definition findAllMails : M (list string) :=
  awaitStore FindAllMails (fun w => (Ok (mailDB w), w)).

(** [mailList.findOneAndDelete({email})] *)
Definition deleteMail (e : string) : M unit :=
  awaitStore DeleteMail
    (fun w => (Ok tt, mkWorld (removeFirst e (mailDB w)) (gameDB w) (outbox w))).


End StoreCalls.

(** ** NotificationFormatter *)

Definition formatToHTML (ele : IGame) : string :=
  let html :=
    nl ++ "    <h1>Free Game from Epic Store</h1>" ++
    nl ++ "    <h2>" ++ game ele ++ "</h2>" ++
    nl ++ "    <h4>Start Date : " ++ startDate ele ++ "</h4>" ++
    nl ++ "    <h4>End Date : " ++ endDate ele ++ "</h4>" ++
    nl ++ "    " in
  or_else (Some html) "".

(** ** The runtime and the libraries *)

Class Runtime : Type := {
  (** [new Date(s).getTime()]; [None] is Invalid Date. *)
  parseDate : string -> option Z;
  (** [Date.prototype.toLocaleDateString('en-IN')] *)
  toLocaleDateString : option Z -> string;
  (** [EMAIL_CONFIG.user] *)
  EMAIL_USER : string;
  (** The transporter: on its [n]-th call (from 0) with message [m] it
      accepts the message ([None]) or rejects it with a reason. *)
  transport : nat -> MailOptions -> option string;
  (** validator.js: the [trim] sanitizer and the [isEmail] validator. *)
  trim : string -> string;
  isEmail : string -> bool;
  (** The text of a library error inside a template string. *)
  libErrorText : LibError -> string
}.

Section Server.

Context {rt : Runtime} {st : Store}.

(** [`${error}`] *)
Definition render (t : Thrown) : string :=
  match t with
  | ThrownApp e => "Error: " ++ message e
  | ThrownLib e => libErrorText e
  end.

(** *** CatalogClient *)

Definition formatDate (dateStr : string) : string :=
  toLocaleDateString (parseDate dateStr).

(** [now > new Date(ele.effectiveDate)]: false on an invalid date. *)
Definition started (now : Z) (ele : CatalogEntry) : bool :=
  match parseDate (effectiveDate ele) with
  | Some t => (t <? now)%Z
  | None => false
  end.

(** In words: the expiry date is not [null] and the promotion has started
    before [now]. *)
Definition Current (now : Z) (ele : CatalogEntry) : Prop :=
  expiryDate ele <> Null /\
  exists t, parseDate (effectiveDate ele) = Some t /\ (t < now)%Z.

(** The predicate of [games.filter]: [ele.expiryDate !== null] is true of
    a string and of [undefined]. *)
Definition isCurrent (now : Z) (ele : CatalogEntry) : bool :=
  match expiryDate ele with
  | Null => false
  | Missing | Str _ => started now ele
  end.

Definition currentFreeGames (now : Z) (games : list CatalogEntry) : list CatalogEntry :=
  filter (isCurrent now) games.

(** The object literal [gameDetail]. [new Date(undefined)] is Invalid
    Date and [new Date(null)] is the epoch. *)
Definition gameDetail (curFreeGame : CatalogEntry) : IGame :=
  {| game := title curFreeGame;
     startDate := formatDate (effectiveDate curFreeGame);
     endDate := match expiryDate curFreeGame with
                | Str d => formatDate d
                | Missing => toLocaleDateString None
                | Null => toLocaleDateString (Some 0%Z)
                end |}.

(** The part of [curGame] after the feed has been fetched and parsed. *)
Definition pickGame (now : Z) (games : list CatalogEntry) : option IGame :=
  match currentFreeGames now games with
  | [] => None
  | curFreeGame :: _ => Some (gameDetail curFreeGame)
  end.

(** [curGame]; [feed] is what [fetch(URL)] and [response.json()] give:
    [None] when either of them throws. *)
Definition curGame (now : Z) (feed : option (list CatalogEntry)) : M (option IGame) :=
  match feed with
  | None => throw (ThrownLib FetchError)
  | Some games => ret (pickGame now games)
  end.

(** *** Mailer *)

Definition isBlind (to : Recipients) : bool :=
  match to with
  | Addrs l => (1 <? List.length l)%nat
  | Addr _ => false
  end.

Definition mailOptions (to : Recipients) (subject text html : option string) : MailOptions :=
  let recipients := match to with Addrs l => join ", " l | Addr s => s end in
  {| mo_from := EMAIL_USER;
     mo_to := if isBlind to then None else Some recipients;
     mo_bcc := if isBlind to then Some recipients else None;
     mo_subject := or_else (default_param subject "Free epic game") "Free epic game";
     mo_text := or_else text "";
     mo_html := or_else html "" |}.

(** [transporter.sendMail(mailOptions)] *)
Definition transporterSendMail (m : MailOptions) : M unit :=
  fun w =>
    let w' := mkWorld (mailDB w) (gameDB w) (outbox w ++ [m])%list in
    match transport (List.length (outbox w)) m with
    | None => (Ok tt, w')
    | Some reason => (Throw (ThrownLib (TransportError reason)), w')
    end.

Definition sendMail (to : Recipients) (subject text html : option string) : M string :=
  try_catch
    (transporterSendMail (mailOptions to subject text html) ;;;
     ret "Mail sent")
    (fun error =>
       throw (ThrownApp (newAppError ("Can't send mail : " ++ render error) (Some 500)))).

(** *** Validators *)

(** [body('email').isString().trim().isLength({min:6}).isEmail()
    .withMessage('Enter a valid email')] on a string field: the sanitized
    value and the messages of the validators that failed. *)
Definition emailChain (email : string) : string * list string :=
  let v := trim email in
  (v,
   ((if (6 <=? String.length v)%nat then [] else ["Invalid value"]) ++
    (if isEmail v then [] else ["Enter a valid email"]))%list).

(** [checkValidation] *)
Definition checkValidation (errors : list string) : option AppError :=
  match errors with
  | [] => None
  | _ => Some (newAppError (join ", " errors) (Some 400))
  end.

(** *** Routes *)

(** The error handling middleware. *)
Definition errorMiddleware (r : Reply) : Reply :=
  match r with
  | Next err => Json (statusCode err) (BError (message err))
  | _ => r
  end.

(** Runs a handler; a handler of the source catches whatever is thrown, so
    the [Throw] case only stands for an unhandled rejection. *)
Definition serve (h : M Reply) (w : World) : Reply * World :=
  match h w with
  | (Ok r, w') => (errorMiddleware r, w')
  | (Throw _, w') => (NoReply, w')
  end.


(** [app.post('/add-mail', emailVal, ...)]: the handler proper. *)
Definition addMailHandler (now : Z) (feed : option (list CatalogEntry)) (email : string) : M Reply :=
  try_catch
    (mail <- findMail email ;;
     match mail with
     | Some _ => ret (Next (newAppError "Email already exist in the mailing list" (Some 400)))
     | None =>
         saveMail email ;;;
         g <- curGame now feed ;;
         match g with
         | Some g' =>
             sendMail (Addr email) None None (Some (formatToHTML g')) ;;;
             ret (Json 201 (BMsg "Email added to list"))
         | None => ret (Json 201 (BMsg "Email added to list"))
         end
     end)
    (fun err => ret (Next (newAppError ("Can't add mail : " ++ render err) None))).

(** A route guarded by [emailVal]: [h] sees the sanitized email. *)
Definition withEmailVal (h : string -> M Reply) (email : string) : M Reply :=
  let '(v, errors) := emailChain email in
  match checkValidation errors with
  | Some err => ret (Next err)
  | None => h v
  end.

Definition addMail (now : Z) (feed : option (list CatalogEntry)) (email : string) : M Reply :=
  withEmailVal (addMailHandler now feed) email.

(** [latestGame.game === latestSavedGame?.game] *)
Definition sameGame (latestGame : IGame) (latestSavedGame : option IGame) : bool :=
  match latestSavedGame with
  | Some saved => String.eqb (game latestGame) (game saved)
  | None => false
  end.

(** [app.post('/send-to-mailList', ...)]. When no game is free the handler
    returns a freshly built [AppError]: it is neither thrown nor passed to
    [next], and no response is written. *)
Definition sendToMailList (now : Z) (feed : option (list CatalogEntry)) : M Reply :=
  try_catch
    (latest <- curGame now feed ;;
     match latest with
     | None => ret NoReply
     | Some latestGame =>
         latestSavedGame <- findLatestGame ;;
         if sameGame latestGame latestSavedGame
         then ret (Json 200 (BMsg "Same game"))
         else
           saveGame {| game := game latestGame;
                       startDate := startDate latestGame;
                       endDate := endDate latestGame |} ;;;
           mailingList <- findAllMails ;;
           sendMail (Addrs mailingList) None None (Some (formatToHTML latestGame)) ;;;
           ret (Json 200 (BName (game latestGame)))
     end)
    (fun error => ret (Next (newAppError ("Can't send mails to mail list : " ++ render error) None))).

(** The decision of the specification, in its words (section 4.2): no
    action when nothing is free, a notification on the first observation,
    no action when the title is the one last recorded, a notification
    otherwise. The source has no such function; [sendToMailList] inlines
    it, and the two are compared below. *)
Inductive Action : Type :=
| NoAction
| Notify (latest : IGame).

Definition spec_decide (latest lastRecorded : option IGame) : Action :=
  match latest, lastRecorded with
  | None, _ => NoAction
  | Some g, None => Notify g
  | Some g, Some g' => if String.eqb (game g) (game g') then NoAction else Notify g
  end.


(** [app.post('/remove-mail', emailVal, ...)] *)
Definition removeMail (email : string) : M Reply :=
  withEmailVal
    (fun v =>
       try_catch
         (deleteMail v ;;;
          ret (Json 200 (BMsg "Mail removed")))
         (fun error => ret (Next (newAppError ("Can't remove the mail : " ++ render error) None))))
    email.

End Server.

(** [n] cycles in a row against the same feed and clock. *)
Fixpoint cycles {rt : Runtime} {st : Store} (n : nat) (now : Z) (feed : option (list CatalogEntry))
         (w : World) : World :=
  match n with
  | O => w
  | S k => cycles k now feed (snd (sendToMailList now feed w))
  end.

(** ** The earlier revision

    The first revision in the source listing formats dates by hand and
    lets [curGame] return every current game. Its filter is the one of the
    current revision. *)

Module Rev1.

(** [String.prototype.split] with a separator of one character. The
    result is never empty: a string without the separator is its only
    piece. *)
Fixpoint split (sep : ascii) (s : string) : list string :=
  match s with
  | EmptyString => [EmptyString]
  | String c r =>
      if Ascii.eqb c sep then EmptyString :: split sep r
      else match split sep r with
           | h :: t => String c h :: t
           | [] => [String c EmptyString]
           end
  end.

(** The character occurs in the string. *)
Fixpoint occurs (c : ascii) (s : string) : bool :=
  match s with
  | EmptyString => false
  | String x r => Ascii.eqb x c || occurs c r
  end.

(** [date.split('T')[0].split('-')], then [reverse()] and [join('-')]. *)
Definition formatDate (date : string) : string :=
  let initial := split "-" (hd "" (split "T" date)) in
  let formattedDate := join "-" (rev initial) in
  formattedDate.

Section Catalog.

Context {rt : Runtime}.

(** The object literal of [currentFreeGames.map]. [formatDate] calls
    [split] on its argument: on [undefined] and on [null] that throws a
    TypeError, [None] here. *)
Definition gameDetail (ele : CatalogEntry) : option IGame :=
  match expiryDate ele with
  | Str expiry =>
      Some {| game := title ele;
              startDate := formatDate (effectiveDate ele);
              endDate := formatDate expiry |}
  | Missing | Null => None
  end.

(** [currentFreeGames.map(...)]: the first throw ends the map. *)
Fixpoint gamesDetail (l : list CatalogEntry) : option (list IGame) :=
  match l with
  | [] => Some []
  | ele :: r =>
      match gameDetail ele with
      | None => None
      | Some g =>
          match gamesDetail r with
          | None => None
          | Some gs => Some (g :: gs)
          end
      end
  end.

(** [curGame] on a fetched feed; [None] when the map throws. *)
Definition curGame (now : Z) (games : list CatalogEntry) : option (list IGame) :=
  gamesDetail (currentFreeGames now games).

End Catalog.

End Rev1.

(** ** A concrete runtime and concrete inputs

    Used to run the definitions on examples. The dates are the few the
    examples need; the clock reads 3 May 2024, 15:00 UTC. *)

Module Sample.

Definition parse (s : string) : option Z :=
  if String.eqb s "2024-05-02T15:00:00.000Z" then Some 1714662000000%Z
  else if String.eqb s "2024-05-09T15:00:00.000Z" then Some 1715266800000%Z
  else if String.eqb s "2024-05-16T15:00:00.000Z" then Some 1715871600000%Z
  else None.

Definition localeDate (t : option Z) : string :=
  match t with
  | None => "Invalid Date"
  | Some ms =>
      if (ms =? 1714662000000)%Z then "2/5/2024"
      else if (ms =? 1715266800000)%Z then "9/5/2024"
      else if (ms =? 1715871600000)%Z then "16/5/2024"
      else "1/1/1970"
  end.

Definition now : Z := 1714748400000%Z.
Definition later : Z := 1714752000000%Z.
Definition nextWeek : Z := 1715300000000%Z.
(** The millisecond at which "Upcoming" starts, and the next one. *)
Definition atStart : Z := 1715266800000%Z.
Definition justAfter : Z := 1715266800001%Z.

(** Stores that reject one call of the request. *)
Definition rejecting (call : StoreCall) : Store :=
  {| storeFault := fun c =>
       match c, call with
       | FindMail, FindMail | SaveMail, SaveMail | FindAllMails, FindAllMails
       | DeleteMail, DeleteMail | FindLatestGame, FindLatestGame
       | SaveGame, SaveGame | DeleteLatestGame, DeleteLatestGame => Some "connection lost"
       | _, _ => None
       end |}.

Definition accept (n : nat) (m : MailOptions) : option string := None.
Definition refuse (n : nat) (m : MailOptions) : option string := Some "ECONNREFUSED".

Fixpoint ltrim (s : string) : string :=
  match s with
  | String c r => if Ascii.eqb c " " then ltrim r else s
  | EmptyString => EmptyString
  end.

Fixpoint rtrim (s : string) : string :=
  match s with
  | EmptyString => EmptyString
  | String c r =>
      match rtrim r with
      | EmptyString => if Ascii.eqb c " " then EmptyString else String c EmptyString
      | r' => String c r'
      end
  end.

Definition trimSpaces (s : string) : string := rtrim (ltrim s).

Fixpoint hasAt (s : string) : bool :=
  match s with
  | EmptyString => false
  | String c r => Ascii.eqb c "@" || hasAt r
  end.

Definition errorText (e : LibError) : string :=
  match e with
  | RequiredPath p => "ValidationError: Path `" ++ p ++ "` is required."
  | DuplicateKey p => "MongoServerError: E11000 duplicate key error, " ++ p
  | TransportError r => "Error: " ++ r
  | FetchError => "TypeError: fetch failed"
  | StoreError r => "MongooseError: " ++ r
  end.

Definition alpha : CatalogEntry :=
  mkEntry "Alpha" "2024-05-02T15:00:00.000Z" (Str "2024-05-09T15:00:00.000Z").
Definition beta : CatalogEntry :=
  mkEntry "Beta" "2024-05-02T15:00:00.000Z" (Str "2024-05-09T15:00:00.000Z").
Definition upcoming : CatalogEntry :=
  mkEntry "Upcoming" "2024-05-09T15:00:00.000Z" (Str "2024-05-16T15:00:00.000Z").
Definition paid : CatalogEntry :=
  mkEntry "Paid" "2024-05-02T15:00:00.000Z" Null.
Definition keyless : CatalogEntry :=
  mkEntry "Keyless" "2024-05-02T15:00:00.000Z" Missing.
Definition untitled : CatalogEntry :=
  mkEntry "" "2024-05-02T15:00:00.000Z" (Str "2024-05-09T15:00:00.000Z").

Definition feedAlpha : list CatalogEntry := [upcoming; paid; alpha; beta].
Definition feedNone : list CatalogEntry := [upcoming; paid].
Definition feedUntitled : list CatalogEntry := [untitled].

Definition gAlpha : IGame := mkGame "Alpha" "2/5/2024" "9/5/2024".
Definition gBeta : IGame := mkGame "Beta" "25/4/2024" "2/5/2024".
Definition gBetaNow : IGame := mkGame "Beta" "2/5/2024" "9/5/2024".

Definition fresh : World := mkWorld ["a@x.com"; "b@x.com"] [] [].
Definition afterBeta : World := mkWorld ["a@x.com"; "b@x.com"] [gBeta] [].
Definition noSubscribers : World := mkWorld [] [gBeta] [].

(** Two runtimes: one whose transporter accepts every mail, one whose
    transporter refuses every mail. *)
Definition runtimeWith (send : nat -> MailOptions -> option string) : Runtime :=
  {| parseDate := parse;
     toLocaleDateString := localeDate;
     EMAIL_USER := "bot@x.com";
     transport := send;
     trim := trimSpaces;
     isEmail := hasAt;
     libErrorText := errorText |}.

Definition accepting : Runtime := runtimeWith accept.
Definition refusing : Runtime := runtimeWith refuse.

(** The cycle and the subscription on a sample runtime. *)
Definition cycle (rt : Runtime) (now : Z) (games : list CatalogEntry) : M Reply :=
  sendToMailList (st := reliable) now (Some games).

Definition subscribe (now : Z) (games : list CatalogEntry) (raw : string) : M Reply :=
  addMail (rt := accepting) (st := reliable) now (Some games) raw.

Definition fetched (now : Z) (games : list CatalogEntry) : option IGame :=
  pickGame (rt := accepting) now games.

Definition announcement (to : list string) (g : IGame) : MailOptions :=
  mailOptions (rt := accepting) (Addrs to) None None (Some (formatToHTML g)).

(** The world after "Alpha" and then "Beta" have been announced to the
    two subscribers, starting from an empty history. *)
Definition afterAlphaBeta : World :=
  snd (cycle accepting now [beta] (snd (cycle accepting now feedAlpha fresh))).

End Sample.

(** From here on a handler that is given no [Store] runs on the store
    that answers every call. *)
#[global] Existing Instance reliable.

Ltac unfold_monad := unfold try_catch, bind, ret, throw.

Section ServerFacts.

Context {rt : Runtime}.

(** The facts of this section are about handlers on the store that
    answers every call, [reliable]. *)

(** ** Facts about the monad and the stores *)

Lemma bind_ret_l {A B} (a : A) (k : A -> M B) (w : World) :
  bind (ret a) k w = k a w.
Proof. reflexivity. Qed.

Lemma bind_ret_r {A} (c : M A) (w : World) :
  bind c ret w = c w.
Proof. unfold_monad. destruct (c w) as [[a | t] w']; reflexivity. Qed.

Lemma bind_assoc {A B C} (c : M A) (k : A -> M B) (h : B -> M C) (w : World) :
  bind (bind c k) h w = bind c (fun a => bind (k a) h) w.
Proof. unfold_monad. destruct (c w) as [[a | t] w']; reflexivity. Qed.

Lemma bind_throw {A B} (t : Thrown) (k : A -> M B) (w : World) :
  bind (throw t) k w = (Throw t, w).
Proof. reflexivity. Qed.

Lemma try_catch_throw {A} (t : Thrown) (h : Thrown -> M A) (w : World) :
  try_catch (throw t) h w = h t w.
Proof. reflexivity. Qed.

Lemma hasMail_In (e : string) (db : list string) : hasMail e db = true <-> In e db.
Proof.
  unfold hasMail. rewrite existsb_exists. split.
  - intros [x [Hin Hx]]. apply String.eqb_eq in Hx. now subst.
  - intro Hin. exists e. split; [assumption | apply String.eqb_refl].
Qed.

Lemma findMail_hasMail (e : string) (db : list string) :
  find (String.eqb e) db = None <-> hasMail e db = false.
Proof.
  unfold hasMail. induction db as [| x db IH]; simpl.
  - split; reflexivity.
  - destruct (String.eqb e x); simpl; [split; discriminate | exact IH].
Qed.

Lemma hasGame_In (t : string) (db : list IGame) :
  hasGame t db = true <-> exists d, In d db /\ game d = t.
Proof.
  unfold hasGame. rewrite existsb_exists.
  split; intros [d [Hin Hd]]; exists d; split; trivial; now apply String.eqb_eq.
Qed.

(** What the schema of [GamesList] lets in. *)
Lemma gameRejected_None (db : list IGame) (g : IGame) :
  gameRejected db g = None <->
  game g <> "" /\ startDate g <> "" /\ hasGame (game g) db = false.
Proof.
  unfold gameRejected.
  destruct (String.eqb_spec (game g) "") as [Ht | Ht].
  { split; [discriminate | intros [H _]; contradiction]. }
  destruct (String.eqb_spec (startDate g) "") as [Hd | Hd].
  { split; [discriminate | intros [_ [H _]]; contradiction]. }
  destruct (hasGame (game g) db); split; try discriminate.
  - intros [_ [_ H]]. discriminate.
  - intros _. repeat split; assumption.
  - reflexivity.
Qed.

Lemma curGame_fetched (now : Z) (games : list CatalogEntry) :
  curGame now (Some games) = ret (pickGame now games).
Proof. reflexivity. Qed.

(** [sendMail] hands exactly one message to the transporter, whatever the
    transporter answers, and turns a rejection into an [AppError]. *)
Lemma sendMail_run (to : Recipients) (subject text html : option string) (w : World) :
  sendMail to subject text html w =
  let m := mailOptions to subject text html in
  let w' := mkWorld (mailDB w) (gameDB w) (outbox w ++ [m])%list in
  match transport (List.length (outbox w)) m with
  | None => (Ok "Mail sent", w')
  | Some reason =>
      (Throw (ThrownApp (newAppError
         ("Can't send mail : " ++ libErrorText (TransportError reason)) (Some 500))), w')
  end.
Proof.
  unfold sendMail, try_catch, bind, transporterSendMail, ret, throw. simpl.
  destruct (transport _ _); reflexivity.
Qed.

(** ** CatalogClient *)

Lemma isCurrent_Current (now : Z) (ele : CatalogEntry) :
  isCurrent now ele = true <-> Current now ele.
Proof.
  unfold isCurrent, started, Current.
  destruct (expiryDate ele) as [| | d];
    [| split; [discriminate | intros [H _]; now elim H] |];
    (destruct (parseDate (effectiveDate ele)) as [t |];
     [ rewrite Z.ltb_lt; split;
       [ intro H; split; [discriminate | exists t; auto]
       | intros [_ [t' [Ht' Hlt]]]; now inversion Ht'; subst ]
     | split; [discriminate |]; intros [_ [t' [Ht' _]]]; discriminate ]).
Qed.

Lemma filter_first {A : Type} (p : A -> bool) (pre : list A) (x : A) (post : list A) :
  (forall y, In y pre -> p y = false) -> p x = true ->
  filter p (pre ++ x :: post) = x :: filter p post.
Proof.
  intros Hpre Hx. induction pre as [| y pre IH]; simpl.
  - now rewrite Hx.
  - rewrite (Hpre y (or_introl eq_refl)). apply IH.
    intros z Hz. apply Hpre. now right.
Qed.

(** C3, as the code has it. [curGame] keeps exactly the feed entries
    whose [expiryDate] is not [null] (an entry with no [expiryDate] key is
    kept too) and whose [effectiveDate] lies strictly before the current
    time; it returns the first of them in feed order, as a game record,
    and [null] when there is none. The stores are not touched. *)
Theorem curGame_first_current (now : Z) (games : list CatalogEntry) :
  (forall ele, In ele (currentFreeGames now games) <-> In ele games /\ Current now ele) /\
  (forall pre ele post,
      games = (pre ++ ele :: post)%list ->
      (forall x, In x pre -> ~ Current now x) ->
      Current now ele ->
      forall w, curGame now (Some games) w = (Ok (Some (gameDetail ele)), w)) /\
  ((forall ele, In ele games -> ~ Current now ele) <->
   forall w, curGame now (Some games) w = (Ok None, w)).
Proof.
  split; [| split].
  - intro ele. unfold currentFreeGames. rewrite filter_In, isCurrent_Current.
    reflexivity.
  - intros pre ele post -> Hpre Hele w.
    unfold curGame, ret, pickGame, currentFreeGames.
    rewrite filter_first; trivial.
    + intros x Hx. specialize (Hpre x Hx). rewrite <- isCurrent_Current in Hpre.
      now destruct (isCurrent now x).
    + now apply isCurrent_Current.
  - unfold curGame, ret, pickGame, currentFreeGames. split.
    + intros Hnone w.
      destruct (filter (isCurrent now) games) as [| e l] eqn:E; trivial.
      assert (Hin : In e (filter (isCurrent now) games)) by (rewrite E; now left).
      apply filter_In in Hin. destruct Hin as [Hin Hc].
      apply isCurrent_Current in Hc. now elim (Hnone e Hin).
    + intros Hrun ele Hin Hc.
      specialize (Hrun (mkWorld [] [] [])).
      destruct (filter (isCurrent now) games) as [| e l] eqn:E; [| discriminate].
      assert (Hf : In ele (filter (isCurrent now) games)).
      { apply filter_In. split; trivial. now apply isCurrent_Current. }
      rewrite E in Hf. inversion Hf.
Qed.

(** ** Mailer *)

(** C2. A list of exactly one recipient is addressed in the visible [to]
    field, which holds that recipient, and so is a recipient given as a
    plain string; a list of more than one recipient is addressed in [bcc]
    and the message has no [to] field, so that no address is shown to
    another recipient. In each case this is the one message handed to the
    transporter. *)
Theorem sendMail_recipient_mode (to : Recipients) (subject text html : option string) (w : World) :
  let m := mailOptions to subject text html in
  outbox (snd (sendMail to subject text html w)) = (outbox w ++ [m])%list /\
  (forall e, to = Addrs [e] \/ to = Addr e -> mo_to m = Some e /\ mo_bcc m = None) /\
  (forall l, to = Addrs l -> 1 < List.length l ->
             mo_to m = None /\ mo_bcc m = Some (join ", " l)).
Proof.
  intro m. split; [| split].
  - rewrite sendMail_run. cbv zeta. fold m.
    destruct (transport (List.length (outbox w)) m); reflexivity.
  - intros e [-> | ->]; split; reflexivity.
  - intros l -> Hlen. unfold m, mailOptions, isBlind.
    apply Nat.ltb_lt in Hlen. rewrite Hlen. split; reflexivity.
Qed.

(** ** The notification cycle *)

Lemma sameGame_titles (g g' : IGame) :
  sameGame g (Some g') = true <-> game g = game g'.
Proof. apply String.eqb_eq. Qed.

Lemma sendToMailList_absent (now : Z) (games : list CatalogEntry) (w : World) :
  pickGame now games = None ->
  sendToMailList now (Some games) w = (Ok NoReply, w).
Proof.
  intro H. unfold sendToMailList, try_catch, bind, curGame, ret. now rewrite H.
Qed.

Lemma sendToMailList_same (now : Z) (games : list CatalogEntry) (w : World) (g : IGame) :
  pickGame now games = Some g ->
  sameGame g (hd_error (gameDB w)) = true ->
  sendToMailList now (Some games) w = (Ok (Json 200 (BMsg "Same game")), w).
Proof.
  intros H Hs.
  unfold sendToMailList, try_catch, bind, curGame, ret, findLatestGame.
  unfold awaitStore; cbn [storeFault reliable].
  now rewrite H, Hs.
Qed.

(** The store refuses the new game: nothing is written, nothing is mailed. *)
Lemma sendToMailList_rejected (now : Z) (games : list CatalogEntry) (w : World)
      (g : IGame) (e : LibError) :
  pickGame now games = Some g ->
  sameGame g (hd_error (gameDB w)) = false ->
  gameRejected (gameDB w) g = Some e ->
  sendToMailList now (Some games) w =
  (Ok (Next (newAppError ("Can't send mails to mail list : " ++ libErrorText e) None)), w).
Proof.
  intros H Hs Hr. destruct g as [t sd ed].
  unfold sendToMailList, try_catch, bind, curGame, ret, findLatestGame, saveGame.
  unfold awaitStore; cbn [storeFault reliable].
  rewrite H, Hs. simpl. now rewrite Hr.
Qed.

(** The store accepts the new game: the mail is sent from a world whose
    history already holds it. *)
Lemma sendToMailList_notify (now : Z) (games : list CatalogEntry) (w : World) (g : IGame) :
  pickGame now games = Some g ->
  sameGame g (hd_error (gameDB w)) = false ->
  gameRejected (gameDB w) g = None ->
  sendToMailList now (Some games) w =
  match sendMail (Addrs (mailDB w)) None None (Some (formatToHTML g))
                 (mkWorld (mailDB w) (g :: gameDB w) (outbox w)) with
  | (Ok _, w2) => (Ok (Json 200 (BName (game g))), w2)
  | (Throw t, w2) =>
      (Ok (Next (newAppError ("Can't send mails to mail list : " ++ render t) None)), w2)
  end.
Proof.
  intros H Hs Hr. destruct g as [t sd ed].
  unfold sendToMailList, try_catch at 1, bind, curGame, ret, findLatestGame,
    saveGame, findAllMails.
  unfold awaitStore; cbn [storeFault reliable].
  rewrite H, Hs. simpl. rewrite Hr. simpl.
  destruct (sendMail _ _ _ _ _) as [[s | t'] w2]; reflexivity.
Qed.

(** X21. The handler branches by the four-rule decision table: it leaves
    the world alone when nothing is free or when the title is the one
    last saved, and otherwise runs save, then send, inside its
    [try]/[catch]. *)
Lemma sendToMailList_decides (now : Z) (games : list CatalogEntry) (w : World) :
  sendToMailList now (Some games) w =
  match spec_decide (pickGame now games) (hd_error (gameDB w)) with
  | NoAction =>
      (Ok (match pickGame now games with
           | None => NoReply
           | Some _ => Json 200 (BMsg "Same game")
           end), w)
  | Notify g =>
      try_catch
        (saveGame g ;;;
         mailingList <- findAllMails ;;
         sendMail (Addrs mailingList) None None (Some (formatToHTML g)) ;;;
         ret (Json 200 (BName (game g))))
        (fun error =>
           ret (Next (newAppError ("Can't send mails to mail list : " ++ render error) None)))
        w
  end.
Proof.
  destruct (pickGame now games) as [g |] eqn:Hg.
  - destruct (hd_error (gameDB w)) as [g' |] eqn:Hhd; simpl.
    + destruct (String.eqb (game g) (game g')) eqn:Ht.
      * apply sendToMailList_same with (g := g); trivial. now rewrite Hhd.
      * unfold sendToMailList. unfold_monad. unfold curGame, findLatestGame. unfold_monad.
        unfold awaitStore; cbn [storeFault reliable].
        rewrite Hg, Hhd. simpl. rewrite Ht. now destruct g.
    + unfold sendToMailList. unfold_monad. unfold curGame, findLatestGame. unfold_monad.
        unfold awaitStore; cbn [storeFault reliable].
      rewrite Hg, Hhd. simpl. now destruct g.
  - simpl. now apply sendToMailList_absent.
Qed.

(** The worlds a notification leaves behind. *)
Lemma sendToMailList_notify_world (now : Z) (games : list CatalogEntry) (w : World) (g : IGame) :
  pickGame now games = Some g ->
  sameGame g (hd_error (gameDB w)) = false ->
  gameRejected (gameDB w) g = None ->
  snd (sendToMailList now (Some games) w) =
  mkWorld (mailDB w) (g :: gameDB w)
          (outbox w ++ [mailOptions (Addrs (mailDB w)) None None (Some (formatToHTML g))])%list.
Proof.
  intros H Hs Hr. rewrite (sendToMailList_notify now games w g H Hs Hr).
  rewrite sendMail_run. cbv zeta. simpl.
  destruct (transport _ _); reflexivity.
Qed.

Lemma gameDB_not_grown (g : IGame) (db : list IGame) : db <> g :: db.
Proof.
  intro H. apply (f_equal (@List.length IGame)) in H. simpl in H. lia.
Qed.

(** C5. When [curGame] finds no free game the handler does nothing,
    whatever the history holds: the world is left as it is (no history
    entry, no mail) and no response is written. *)
Theorem absent_game_no_action (now : Z) (feed : option (list CatalogEntry)) (w : World) :
  fst (curGame now feed w) = Ok None ->
  serve (sendToMailList now feed) w = (NoReply, w).
Proof.
  destruct feed as [games |]; simpl; [| discriminate].
  unfold ret. simpl. intro H. injection H as H.
  unfold serve. now rewrite sendToMailList_absent.
Qed.

(** C1, as the code has it. With a latest saved game [g'], the handler
    answers "Same game" and leaves the world alone exactly when the titles
    are equal, whatever the dates; when they differ and the schema of the
    history accepts [g] (title and start date not empty, title not yet in
    the history), [g] is saved and one mail to the whole list is handed to
    the transporter. *)
Theorem title_decides (now : Z) (games : list CatalogEntry) (w : World) (g g' : IGame) :
  pickGame now games = Some g ->
  hd_error (gameDB w) = Some g' ->
  let run := sendToMailList now (Some games) w in
  (game g = game g' -> run = (Ok (Json 200 (BMsg "Same game")), w)) /\
  (game g <> game g' -> fst run <> Ok (Json 200 (BMsg "Same game"))) /\
  (game g <> game g' -> gameRejected (gameDB w) g = None ->
   snd run =
   mkWorld (mailDB w) (g :: gameDB w)
     (outbox w ++ [mailOptions (Addrs (mailDB w)) None None (Some (formatToHTML g))])%list).
Proof.
  intros Hg Hhd run. unfold run. split; [| split].
  - intro Heq. apply sendToMailList_same with (g := g); trivial.
    rewrite Hhd. now apply sameGame_titles.
  - intro Hne.
    assert (Hs : sameGame g (hd_error (gameDB w)) = false).
    { rewrite Hhd. simpl. now apply String.eqb_neq. }
    destruct (gameRejected (gameDB w) g) as [e |] eqn:Hr.
    + rewrite (sendToMailList_rejected now games w g e Hg Hs Hr). discriminate.
    + rewrite (sendToMailList_notify now games w g Hg Hs Hr).
      destruct (sendMail _ _ _ _ _) as [[x | t] w2]; discriminate.
  - intros Hne Hr. apply sendToMailList_notify_world; trivial.
    rewrite Hhd. simpl. now apply String.eqb_neq.
Qed.

(** C6, as the code has it. With an empty history, every fetched game
    whose title and start date are not empty is saved, and one mail to the
    whole list is handed to the transporter; the response names the game
    when the transporter accepts the mail. *)
Theorem first_observation_notifies (now : Z) (games : list CatalogEntry) (w : World) (g : IGame) :
  pickGame now games = Some g ->
  gameDB w = [] ->
  game g <> "" ->
  startDate g <> "" ->
  let m := mailOptions (Addrs (mailDB w)) None None (Some (formatToHTML g)) in
  let run := sendToMailList now (Some games) w in
  snd run = mkWorld (mailDB w) [g] (outbox w ++ [m])%list /\
  (transport (List.length (outbox w)) m = None ->
   fst run = Ok (Json 200 (BName (game g)))).
Proof.
  intros Hg Hdb Ht Hsd m run.
  assert (Hs : sameGame g (hd_error (gameDB w)) = false) by now rewrite Hdb.
  assert (Hr : gameRejected (gameDB w) g = None).
  { apply gameRejected_None. rewrite Hdb. auto. }
  split.
  - unfold run. rewrite (sendToMailList_notify_world now games w g Hg Hs Hr).
    now rewrite Hdb.
  - intro Hacc. unfold run.
    rewrite (sendToMailList_notify now games w g Hg Hs Hr), sendMail_run.
    cbv zeta. simpl. fold m. now rewrite Hacc.
Qed.

(** C4, as the code has it. Two cycles in a row on a feed from which
    both fetch the same current game: the second one leaves the world as
    the first one left it, so it sends nothing, and at most one mail is
    sent in all. When the first cycle saves the fetched game, the second
    one answers "Same game" and the two together have sent exactly one
    mail. *)
Theorem cycle_twice_notifies_once (now1 now2 : Z) (games : list CatalogEntry) (w : World) :
  pickGame now2 games = pickGame now1 games ->
  let run1 := sendToMailList now1 (Some games) w in
  let run2 := sendToMailList now2 (Some games) (snd run1) in
  snd run2 = snd run1 /\
  List.length (outbox (snd run2)) <= S (List.length (outbox w)) /\
  (forall g, pickGame now1 games = Some g ->
             gameDB (snd run1) = g :: gameDB w ->
             fst run2 = Ok (Json 200 (BMsg "Same game")) /\
             outbox (snd run2) =
             (outbox w ++ [mailOptions (Addrs (mailDB w)) None None (Some (formatToHTML g))])%list).
Proof.
  intros Hsame run1 run2. unfold run2, run1.
  destruct (pickGame now1 games) as [g |] eqn:Hg.
  - destruct (sameGame g (hd_error (gameDB w))) eqn:Hs.
    + rewrite (sendToMailList_same now1 games w g Hg Hs). simpl.
      rewrite (sendToMailList_same now2 games w g Hsame Hs). simpl.
      split; [reflexivity | split; [lia |]].
      intros g0 _ Hgrow. now elim (gameDB_not_grown g0 (gameDB w)).
    + destruct (gameRejected (gameDB w) g) as [e |] eqn:Hr.
      * rewrite (sendToMailList_rejected now1 games w g e Hg Hs Hr). simpl.
        rewrite (sendToMailList_rejected now2 games w g e Hsame Hs Hr). simpl.
        split; [reflexivity | split; [lia |]].
        intros g0 _ Hgrow. now elim (gameDB_not_grown g0 (gameDB w)).
      * pose proof (sendToMailList_notify_world now1 games w g Hg Hs Hr) as Hw.
        rewrite Hw.
        rewrite (sendToMailList_same now2 games _ g Hsame)
          by (simpl; apply String.eqb_refl).
        simpl. split; [reflexivity | split].
        -- rewrite length_app. simpl. lia.
        -- intros g0 Hg0 _. injection Hg0 as <-. split; reflexivity.
  - rewrite (sendToMailList_absent now1 games w Hg). simpl.
    rewrite (sendToMailList_absent now2 games w Hsame). simpl.
    split; [reflexivity | split; [lia |]]. intros g0 Hg0. discriminate.
Qed.

(** C8. On the notify path the game is saved before the mailer is called:
    the send runs in a world whose history already holds the game. So when
    the transporter then rejects the mail, the cycle ends in a 500 with the
    game in the history, and the next cycle on the same current game
    answers "Same game" and sends nothing. *)
Theorem append_precedes_send (now1 now2 : Z) (games : list CatalogEntry) (w : World)
        (g : IGame) (reason : string) :
  pickGame now1 games = Some g ->
  pickGame now2 games = Some g ->
  sameGame g (hd_error (gameDB w)) = false ->
  gameRejected (gameDB w) g = None ->
  transport (List.length (outbox w))
            (mailOptions (Addrs (mailDB w)) None None (Some (formatToHTML g))) = Some reason ->
  let run1 := sendToMailList now1 (Some games) w in
  run1 =
  match sendMail (Addrs (mailDB w)) None None (Some (formatToHTML g))
                 (mkWorld (mailDB w) (g :: gameDB w) (outbox w)) with
  | (Ok _, w2) => (Ok (Json 200 (BName (game g))), w2)
  | (Throw t, w2) =>
      (Ok (Next (newAppError ("Can't send mails to mail list : " ++ render t) None)), w2)
  end /\
  (exists msg, fst (serve (sendToMailList now1 (Some games)) w) = Json 500 (BError msg)) /\
  gameDB (snd run1) = g :: gameDB w /\
  sendToMailList now2 (Some games) (snd run1) = (Ok (Json 200 (BMsg "Same game")), snd run1).
Proof.
  intros Hg1 Hg2 Hs Hr Hfail run1. unfold run1.
  split; [now apply sendToMailList_notify |].
  split; [| split].
  - unfold serve. rewrite (sendToMailList_notify now1 games w g Hg1 Hs Hr), sendMail_run.
    cbv zeta. simpl. rewrite Hfail. simpl. eexists. reflexivity.
  - now rewrite (sendToMailList_notify_world now1 games w g Hg1 Hs Hr).
  - apply sendToMailList_same with (g := g); trivial.
    rewrite (sendToMailList_notify_world now1 games w g Hg1 Hs Hr). simpl.
    apply String.eqb_refl.
Qed.

(** C9. An empty recipient list is not sent blind and is not skipped: the
    message goes to the transporter with [to] set to the empty string and
    no [bcc]. In the cycle, with no subscriber at all, the game is saved
    first and that message is still handed to the transporter. *)
Theorem empty_list_sent_in_to_mode (subject text html : option string) (w : World) :
  let m := mailOptions (Addrs []) subject text html in
  mo_to m = Some "" /\
  mo_bcc m = None /\
  outbox (snd (sendMail (Addrs []) subject text html w)) = (outbox w ++ [m])%list /\
  (forall now games g,
      mailDB w = [] ->
      pickGame now games = Some g ->
      sameGame g (hd_error (gameDB w)) = false ->
      gameRejected (gameDB w) g = None ->
      let sent := mailOptions (Addrs []) None None (Some (formatToHTML g)) in
      sendToMailList now (Some games) w =
      match sendMail (Addrs []) None None (Some (formatToHTML g))
                     (mkWorld [] (g :: gameDB w) (outbox w)) with
      | (Ok _, w2) => (Ok (Json 200 (BName (game g))), w2)
      | (Throw t, w2) =>
          (Ok (Next (newAppError ("Can't send mails to mail list : " ++ render t) None)), w2)
      end /\
      snd (sendToMailList now (Some games) w) =
      mkWorld [] (g :: gameDB w) (outbox w ++ [sent])%list).
Proof.
  intro m. split; [reflexivity | split; [reflexivity | split]].
  - rewrite sendMail_run. cbv zeta. fold m.
    destruct (transport (List.length (outbox w)) m); reflexivity.
  - intros now games g Hm Hg Hs Hr sent. split.
    + rewrite (sendToMailList_notify now games w g Hg Hs Hr). now rewrite Hm.
    + rewrite (sendToMailList_notify_world now games w g Hg Hs Hr). now rewrite Hm.
Qed.

(** A cycle either leaves the world alone or saves an accepted game and
    hands one mail to the transporter. *)
Lemma sendToMailList_world (now : Z) (feed : option (list CatalogEntry)) (w : World) :
  snd (sendToMailList now feed w) = w \/
  exists g, gameRejected (gameDB w) g = None /\
            snd (sendToMailList now feed w) =
            mkWorld (mailDB w) (g :: gameDB w)
              (outbox w ++ [mailOptions (Addrs (mailDB w)) None None (Some (formatToHTML g))])%list.
Proof.
  destruct feed as [games |]; [| left; reflexivity].
  destruct (pickGame now games) as [g |] eqn:Hg.
  - destruct (sameGame g (hd_error (gameDB w))) eqn:Hs.
    + left. now rewrite (sendToMailList_same now games w g Hg Hs).
    + destruct (gameRejected (gameDB w) g) as [e |] eqn:Hr.
      * left. now rewrite (sendToMailList_rejected now games w g e Hg Hs Hr).
      * right. exists g. split; trivial. now apply sendToMailList_notify_world.
  - left. now rewrite (sendToMailList_absent now games w Hg).
Qed.

(** X20. The unique index at work: a cycle never puts a title twice in a
    history whose titles were distinct. *)
Lemma sendToMailList_titles_distinct (now : Z) (feed : option (list CatalogEntry)) (w : World) :
  NoDup (map game (gameDB w)) ->
  NoDup (map game (gameDB (snd (sendToMailList now feed w)))).
Proof.
  intro Hnd. destruct (sendToMailList_world now feed w) as [-> | [g [Hr ->]]]; trivial.
  simpl. constructor; trivial.
  apply gameRejected_None in Hr. destruct Hr as [_ [_ Hh]].
  intro Hin. apply in_map_iff in Hin. destruct Hin as [d [Hd Hin]].
  assert (Hc : hasGame (game g) (gameDB w) = true) by (apply hasGame_In; eauto).
  congruence.
Qed.

(** ** Subscribing *)

Lemma or_else_empty (v : string) : or_else (Some v) "" = v.
Proof.
  unfold or_else. destruct (String.eqb_spec v ""); congruence.
Qed.

Lemma addMailHandler_present (now : Z) (feed : option (list CatalogEntry))
      (email : string) (w : World) :
  In email (mailDB w) ->
  addMailHandler now feed email w =
  (Ok (Next (newAppError "Email already exist in the mailing list" (Some 400))), w).
Proof.
  intro Hin. apply hasMail_In in Hin.
  unfold addMailHandler, try_catch, bind, findMail, ret.
  unfold awaitStore; cbn [storeFault reliable].
  destruct (find (String.eqb email) (mailDB w)) as [x |] eqn:Hf; [reflexivity |].
  apply findMail_hasMail in Hf. congruence.
Qed.

Lemma addMailHandler_new (now : Z) (games : list CatalogEntry) (email : string) (w : World) :
  email <> "" ->
  ~ In email (mailDB w) ->
  addMailHandler now (Some games) email w =
  let w1 := mkWorld (mailDB w ++ [email])%list (gameDB w) (outbox w) in
  match pickGame now games with
  | None => (Ok (Json 201 (BMsg "Email added to list")), w1)
  | Some g =>
      match sendMail (Addr email) None None (Some (formatToHTML g)) w1 with
      | (Ok _, w2) => (Ok (Json 201 (BMsg "Email added to list")), w2)
      | (Throw t, w2) => (Ok (Next (newAppError ("Can't add mail : " ++ render t) None)), w2)
      end
  end.
Proof.
  intros Hne Hnew.
  assert (Hh : hasMail email (mailDB w) = false).
  { destruct (hasMail email (mailDB w)) eqn:E; trivial.
    apply hasMail_In in E. contradiction. }
  unfold addMailHandler, try_catch at 1, bind, findMail, saveMail, mailRejected, curGame, ret.
  unfold awaitStore; cbn [storeFault reliable].
  rewrite (proj2 (findMail_hasMail email (mailDB w)) Hh), Hh.
  apply String.eqb_neq in Hne. rewrite Hne. cbv zeta.
  destruct (pickGame now games) as [g |]; [| reflexivity].
  destruct (sendMail _ _ _ _ _) as [[x | t] w2]; reflexivity.
Qed.

Lemma emailChain_valid (email : string) :
  checkValidation (snd (emailChain email)) = None <->
  6 <= String.length (trim email) /\ isEmail (trim email) = true.
Proof.
  unfold emailChain, checkValidation. cbn [snd].
  destruct (Nat.leb_spec 6 (String.length (trim email))) as [Hle | Hlt];
    destruct (isEmail (trim email)); cbn [app]; split; intro H;
    try discriminate; try reflexivity; try (split; [assumption | reflexivity]);
    destruct H; try discriminate; lia.
Qed.

Lemma withEmailVal_invalid (h : string -> M Reply) (email : string) (w : World) (err : AppError) :
  checkValidation (snd (emailChain email)) = Some err ->
  withEmailVal h email w = (Ok (Next err), w) /\ statusCode err = 400.
Proof.
  unfold withEmailVal. destruct (emailChain email) as [v errors]. simpl.
  intro H. rewrite H. split; [reflexivity |].
  unfold checkValidation in H. destruct errors; [discriminate |].
  now injection H as <-.
Qed.

Lemma withEmailVal_valid (h : string -> M Reply) (email : string) :
  checkValidation (snd (emailChain email)) = None ->
  withEmailVal h email = h (trim email).
Proof.
  unfold withEmailVal, emailChain. simpl. now intros ->.
Qed.

(** The handler stores at most the email it was given, and only a new one. *)
Lemma addMailHandler_mailDB (now : Z) (feed : option (list CatalogEntry))
      (email : string) (w : World) :
  mailDB (snd (addMailHandler now feed email w)) = mailDB w \/
  (~ In email (mailDB w) /\
   mailDB (snd (addMailHandler now feed email w)) = (mailDB w ++ [email])%list).
Proof.
  destruct (find (String.eqb email) (mailDB w)) as [x |] eqn:Hf.
  - left. unfold addMailHandler, findMail. unfold_monad. unfold awaitStore; cbn [storeFault reliable]. now rewrite Hf.
  - assert (Hnew : ~ In email (mailDB w)).
    { intro Hin. apply hasMail_In in Hin. apply findMail_hasMail in Hf. congruence. }
    destruct (String.eqb_spec email "") as [-> | Hne].
    + left. unfold addMailHandler, findMail, saveMail, mailRejected. unfold_monad.
      unfold awaitStore; cbn [storeFault reliable].
      now rewrite Hf.
    + right. split; trivial. destruct feed as [games |].
      * rewrite (addMailHandler_new now games email w Hne Hnew). cbv zeta.
        destruct (pickGame now games) as [g |]; [| reflexivity].
        rewrite sendMail_run. cbv zeta.
        destruct (transport _ _); reflexivity.
      * unfold addMailHandler, findMail, saveMail, mailRejected, curGame. unfold_monad.
        unfold awaitStore; cbn [storeFault reliable].
        rewrite Hf. apply findMail_hasMail in Hf. rewrite Hf.
        apply String.eqb_neq in Hne. now rewrite Hne.
Qed.

(** The subscribers stay distinct. *)
Lemma addMail_subscribers_distinct (now : Z) (feed : option (list CatalogEntry))
      (raw : string) (w : World) :
  NoDup (mailDB w) ->
  NoDup (mailDB (snd (addMail now feed raw w))).
Proof.
  intro Hnd. unfold addMail.
  destruct (checkValidation (snd (emailChain raw))) as [err |] eqn:Hv.
  - now rewrite (proj1 (withEmailVal_invalid _ raw w err Hv)).
  - rewrite (withEmailVal_valid _ raw Hv).
    destruct (addMailHandler_mailDB now feed (trim raw) w) as [-> | [Hnew ->]]; trivial.
    apply NoDup_rev in Hnd. rewrite <- (rev_involutive (mailDB w ++ [trim raw])).
    apply NoDup_rev. rewrite rev_app_distr. simpl. constructor; trivial.
    now rewrite <- in_rev.
Qed.

(** C7. An email that is already in the mailing list is refused by the
    handler with the 400 "already exist" error, and the route answers 400
    either way (the same error when the email passes validation); the
    world is left as it is: nothing is stored and nothing is mailed. *)
Theorem duplicate_subscriber_rejected (now : Z) (feed : option (list CatalogEntry))
        (e : string) (w : World) :
  In e (mailDB w) ->
  addMailHandler now feed e w =
  (Ok (Next (newAppError "Email already exist in the mailing list" (Some 400))), w) /\
  (forall raw, trim raw = e ->
     (exists msg, serve (addMail now feed raw) w = (Json 400 (BError msg), w)) /\
     (checkValidation (snd (emailChain raw)) = None ->
      serve (addMail now feed raw) w =
      (Json 400 (BError "Email already exist in the mailing list"), w))).
Proof.
  intro Hin. split; [now apply addMailHandler_present |].
  intros raw Hraw.
  assert (Hvalid : checkValidation (snd (emailChain raw)) = None ->
                   serve (addMail now feed raw) w =
                   (Json 400 (BError "Email already exist in the mailing list"), w)).
  { intro Hv. unfold serve, addMail. rewrite (withEmailVal_valid _ raw Hv), Hraw.
    now rewrite (addMailHandler_present now feed e w Hin). }
  split; [| exact Hvalid].
  destruct (checkValidation (snd (emailChain raw))) as [err |] eqn:Hv.
  - destruct (withEmailVal_invalid (addMailHandler now feed) raw w err Hv) as [Hrun Hcode].
    unfold serve, addMail. rewrite Hrun. simpl. rewrite Hcode. eexists. reflexivity.
  - eexists. now apply Hvalid.
Qed.

(** C10. An email that passes validation and is not yet in the list is
    stored. With no free game nothing is mailed and the answer is 201;
    with a free game one welcome mail, addressed in [to] to that email
    alone, is handed to the transporter, and the answer is 201 when the
    transporter accepts it. *)
Theorem new_subscriber_added (now : Z) (games : list CatalogEntry) (raw : string) (w : World) :
  let v := trim raw in
  6 <= String.length v ->
  isEmail v = true ->
  ~ In v (mailDB w) ->
  let run := serve (addMail now (Some games) raw) w in
  mailDB (snd run) = (mailDB w ++ [v])%list /\
  gameDB (snd run) = gameDB w /\
  (pickGame now games = None ->
   run = (Json 201 (BMsg "Email added to list"),
          mkWorld (mailDB w ++ [v])%list (gameDB w) (outbox w))) /\
  (forall g, pickGame now games = Some g ->
     let m := mailOptions (Addr v) None None (Some (formatToHTML g)) in
     outbox (snd run) = (outbox w ++ [m])%list /\
     mo_to m = Some v /\ mo_bcc m = None /\ mo_html m = formatToHTML g /\
     (transport (List.length (outbox w)) m = None ->
      fst run = Json 201 (BMsg "Email added to list"))).
Proof.
  intros v Hlen Hmail Hnew run.
  assert (Hv : checkValidation (snd (emailChain raw)) = None)
    by (apply emailChain_valid; auto).
  assert (Hne : v <> "") by (intro E; rewrite E in Hlen; simpl in Hlen; lia).
  assert (Hrun : run =
                 match addMailHandler now (Some games) v w with
                 | (Ok r, w') => (errorMiddleware r, w')
                 | (Throw _, w') => (NoReply, w')
                 end).
  { unfold run, serve, addMail. now rewrite (withEmailVal_valid _ raw Hv). }
  rewrite (addMailHandler_new now games v w Hne Hnew) in Hrun. cbv zeta in Hrun.
  destruct (pickGame now games) as [g |] eqn:Hg.
  - rewrite sendMail_run in Hrun. cbv zeta in Hrun. simpl in Hrun.
    destruct (transport (List.length (outbox w))
                (mailOptions (Addr v) None None (Some (formatToHTML g)))) as [reason |] eqn:Ht;
      rewrite Hrun; simpl;
      (split; [reflexivity | split; [reflexivity | split; [discriminate |]]]);
      intros g0 Hg0; injection Hg0 as <-; rewrite Ht;
      (split; [reflexivity | split; [reflexivity | split; [reflexivity | split]]]);
      try apply or_else_empty; try discriminate; reflexivity.
  - rewrite Hrun. simpl.
    split; [reflexivity | split; [reflexivity | split; [reflexivity |]]].
    intros g0 Hg0. discriminate.
Qed.

End ServerFacts.

(** ** Splitting and joining, as the earlier [formatDate] does *)

Section SplitJoin.

Import Rev1.

Variable sep : ascii.

Lemma split_not_nil (s : string) : split sep s <> [].
Proof.
  destruct s as [| c r]; simpl; [discriminate |].
  destruct (Ascii.eqb c sep); [discriminate |].
  destruct (split sep r); discriminate.
Qed.

Lemma join_cons (x : string) (l : list string) :
  l <> [] -> join (String sep "") (x :: l) = x ++ String sep (join (String sep "") l).
Proof.
  destruct l as [| y l]; [congruence | reflexivity].
Qed.

(** Joining the pieces with the separator gives the string back. *)
Lemma join_split (s : string) : join (String sep "") (split sep s) = s.
Proof.
  induction s as [| c r IH]; [reflexivity |]. cbn [split].
  destruct (Ascii.eqb_spec c sep) as [-> | Hc].
  - rewrite join_cons by apply split_not_nil. now rewrite IH.
  - destruct (split sep r) as [| h t] eqn:E; [now elim (split_not_nil r) |].
    destruct t as [| h' t'].
    + cbn in *. now rewrite IH.
    + rewrite join_cons by discriminate. rewrite join_cons in IH by discriminate.
      rewrite <- IH. reflexivity.
Qed.

Lemma split_pieces_clean (s : string) :
  Forall (fun x => occurs sep x = false) (split sep s).
Proof.
  induction s as [| c r IH]; simpl.
  - constructor; [reflexivity | constructor].
  - destruct (Ascii.eqb_spec c sep) as [-> | Hc].
    + constructor; [reflexivity | exact IH].
    + destruct (split sep r) as [| h t]; simpl.
      * constructor; [| constructor]. simpl.
        apply Ascii.eqb_neq in Hc. now rewrite Hc.
      * inversion IH as [| ? ? Hh Ht]; subst. constructor; trivial.
        simpl. apply Ascii.eqb_neq in Hc. now rewrite Hc.
Qed.

Lemma split_clean (x : string) : occurs sep x = false -> split sep x = [x].
Proof.
  induction x as [| c r IH]; simpl; [reflexivity |].
  intro H. apply orb_false_iff in H. destruct H as [Hc Hr].
  rewrite Hc, (IH Hr). reflexivity.
Qed.

Lemma split_app (x r : string) :
  occurs sep x = false -> split sep (x ++ String sep r) = x :: split sep r.
Proof.
  induction x as [| c x IH]; simpl.
  - intros _. now rewrite Ascii.eqb_refl.
  - intro H. apply orb_false_iff in H. destruct H as [Hc Hx].
    rewrite Hc, (IH Hx). reflexivity.
Qed.

(** Splitting a joined list of clean pieces gives the pieces back. *)
Lemma split_join (l : list string) :
  l <> [] ->
  Forall (fun x => occurs sep x = false) l ->
  split sep (join (String sep "") l) = l.
Proof.
  induction l as [| x l IH]; [congruence |].
  intros _ Hall. inversion Hall as [| ? ? Hx Hl]; subst.
  destruct l as [| y l].
  - simpl. now apply split_clean.
  - rewrite join_cons by discriminate. rewrite split_app by exact Hx.
    rewrite IH; [reflexivity | discriminate | exact Hl].
Qed.

End SplitJoin.

Section OtherCharacter.

Import Rev1.

Lemma append_assoc (a b c : string) : (a ++ b) ++ c = a ++ (b ++ c).
Proof.
  induction a as [| x a IH]; simpl; [reflexivity | now rewrite IH].
Qed.

Lemma occurs_app (c : ascii) (a b : string) :
  occurs c (a ++ b) = occurs c a || occurs c b.
Proof.
  induction a as [| x a IH]; simpl; [reflexivity |].
  now rewrite IH, orb_assoc.
Qed.

(** A character that is not in the string is in none of its pieces. *)
Lemma split_pieces_without (c sep : ascii) (s : string) :
  occurs c s = false -> Forall (fun x => occurs c x = false) (split sep s).
Proof.
  induction s as [| x r IH]; simpl.
  - intros _. constructor; [reflexivity | constructor].
  - intro H. apply orb_false_iff in H. destruct H as [Hx Hr]. specialize (IH Hr).
    destruct (Ascii.eqb x sep).
    + constructor; [reflexivity | exact IH].
    + destruct (split sep r) as [| h t].
      * constructor; [| constructor]. simpl. now rewrite Hx.
      * inversion IH as [| ? ? Hh Ht]; subst. constructor; trivial.
        simpl. now rewrite Hx, Hh.
Qed.

Lemma join_without (c sep : ascii) (l : list string) :
  c <> sep ->
  Forall (fun x => occurs c x = false) l ->
  occurs c (join (String sep "") l) = false.
Proof.
  intros Hc Hall. induction Hall as [| x l Hx Hl IH]; [reflexivity |].
  destruct l as [| y l]; [exact Hx |].
  rewrite join_cons by discriminate. rewrite occurs_app. cbn [occurs].
  apply Ascii.eqb_neq in Hc. rewrite Ascii.eqb_sym in Hc.
  now rewrite Hx, Hc, IH.
Qed.

(** X18. On a timestamp [y-m-dT...] whose three parts hold neither a dash
    nor a [T], the earlier [formatDate] gives [d-m-y]. *)
Theorem rev1_formatDate_iso (y m d rest : string) :
  occurs "-" y = false -> occurs "-" m = false -> occurs "-" d = false ->
  occurs "T" y = false -> occurs "T" m = false -> occurs "T" d = false ->
  formatDate (y ++ "-" ++ m ++ "-" ++ d ++ "T" ++ rest) = d ++ "-" ++ m ++ "-" ++ y.
Proof.
  intros Hy Hm Hd Ty Tm Td. unfold formatDate.
  assert (Hpre : occurs "T" (y ++ "-" ++ m ++ "-" ++ d) = false).
  { rewrite !occurs_app. simpl. now rewrite Ty, Tm, Td. }
  replace (y ++ "-" ++ m ++ "-" ++ d ++ "T" ++ rest)
    with ((y ++ "-" ++ m ++ "-" ++ d) ++ String "T" rest)
    by (rewrite !append_assoc; reflexivity).
  rewrite (split_app "T" _ rest Hpre). cbn [hd].
  change (y ++ "-" ++ m ++ "-" ++ d) with (y ++ String "-" (m ++ String "-" d)).
  rewrite (split_app "-" y _ Hy), (split_app "-" m _ Hm), (split_clean "-" d Hd).
  reflexivity.
Qed.

(** X19. Formatting twice undoes the reversal: the earlier [formatDate]
    applied to its own result gives the part of the input before the
    first [T]. *)
Theorem rev1_formatDate_twice (date : string) :
  formatDate (formatDate date) = hd "" (split "T" date).
Proof.
  unfold formatDate.
  set (day := hd "" (split "T" date)).
  assert (Hday : occurs "T" day = false).
  { unfold day. pose proof (split_pieces_clean "T" date) as Hall.
    destruct (split "T" date) as [| h t]; [reflexivity |].
    now inversion Hall. }
  set (parts := split "-" day).
  assert (Hparts : Forall (fun x => occurs "-" x = false) (rev parts)).
  { apply Forall_rev. apply split_pieces_clean. }
  assert (HT : occurs "T" (join "-" (rev parts)) = false).
  { apply join_without; [discriminate |].
    apply Forall_rev. now apply split_pieces_without. }
  rewrite (split_clean "T" _ HT). cbn [hd].
  rewrite (split_join "-" (rev parts)); trivial.
  - rewrite rev_involutive. apply join_split.
  - intro E. apply (f_equal (@rev string)) in E. rewrite rev_involutive in E.
    now elim (split_not_nil "-" day).
Qed.

End OtherCharacter.

(** ** The mailing list routes *)

Section MailingList.

Context {rt : Runtime}.

(** The facts of this section are about handlers on the store that
    answers every call, [reliable]. *)

Lemma valid_not_empty (raw : string) :
  checkValidation (snd (emailChain raw)) = None -> trim raw <> "".
Proof.
  intro Hv. apply emailChain_valid in Hv. destruct Hv as [Hlen _].
  intro E. rewrite E in Hlen. simpl in Hlen. lia.
Qed.

Lemma not_In_hasMail (e : string) (db : list string) :
  ~ In e db <-> hasMail e db = false.
Proof.
  split.
  - intro H. destruct (hasMail e db) eqn:E; trivial.
    apply hasMail_In in E. contradiction.
  - intros H Hin. apply hasMail_In in Hin. congruence.
Qed.

(** Every way a valid, new email goes through [/add-mail]. *)
Lemma addMail_new_cases (now : Z) (feed : option (list CatalogEntry)) (raw : string) (w : World) :
  checkValidation (snd (emailChain raw)) = None ->
  ~ In (trim raw) (mailDB w) ->
  serve (addMail now feed raw) w =
  let v := trim raw in
  let w1 := mkWorld (mailDB w ++ [v])%list (gameDB w) (outbox w) in
  match feed with
  | None => (Json 500 (BError ("Can't add mail : " ++ libErrorText FetchError)), w1)
  | Some games =>
      match pickGame now games with
      | None => (Json 201 (BMsg "Email added to list"), w1)
      | Some g =>
          let m := mailOptions (Addr v) None None (Some (formatToHTML g)) in
          let w2 := mkWorld (mailDB w ++ [v])%list (gameDB w) (outbox w ++ [m])%list in
          match transport (List.length (outbox w)) m with
          | None => (Json 201 (BMsg "Email added to list"), w2)
          | Some reason =>
              (Json 500 (BError ("Can't add mail : Error: Can't send mail : "
                                 ++ libErrorText (TransportError reason))), w2)
          end
      end
  end.
Proof.
  intros Hv Hnew. pose proof (valid_not_empty raw Hv) as Hne.
  unfold serve, addMail. rewrite (withEmailVal_valid _ raw Hv). cbv zeta.
  destruct feed as [games |].
  - rewrite (addMailHandler_new now games (trim raw) w Hne Hnew). cbv zeta.
    destruct (pickGame now games) as [g |]; [| reflexivity].
    rewrite sendMail_run. cbv zeta. simpl.
    destruct (transport _ _); reflexivity.
  - unfold addMailHandler, findMail, saveMail, mailRejected, curGame. unfold_monad.
    unfold awaitStore; cbn [storeFault reliable].
    apply not_In_hasMail in Hnew.
    rewrite (proj2 (findMail_hasMail _ _) Hnew), Hnew.
    apply String.eqb_neq in Hne. now rewrite Hne.
Qed.

Lemma addMail_new_stored (now : Z) (feed : option (list CatalogEntry)) (raw : string) (w : World) :
  checkValidation (snd (emailChain raw)) = None ->
  ~ In (trim raw) (mailDB w) ->
  mailDB (snd (serve (addMail now feed raw) w)) = (mailDB w ++ [trim raw])%list /\
  gameDB (snd (serve (addMail now feed raw) w)) = gameDB w /\
  forall msg, fst (serve (addMail now feed raw) w) <> Json 400 (BError msg).
Proof.
  intros Hv Hnew. rewrite (addMail_new_cases now feed raw w Hv Hnew). cbv zeta.
  destruct feed as [games |]; [| repeat split; discriminate].
  destruct (pickGame now games) as [g |]; [| repeat split; discriminate].
  destruct (transport _ _); repeat split; discriminate.
Qed.

Lemma removeMail_run (raw : string) (w : World) :
  checkValidation (snd (emailChain raw)) = None ->
  serve (removeMail raw) w =
  (Json 200 (BMsg "Mail removed"),
   mkWorld (removeFirst (trim raw) (mailDB w)) (gameDB w) (outbox w)).
Proof.
  intro Hv. unfold serve, removeMail. now rewrite (withEmailVal_valid _ raw Hv).
Qed.

Lemma removeFirst_absent (e : string) (l : list string) :
  ~ In e l -> removeFirst e l = l.
Proof.
  induction l as [| x l IH]; simpl; [reflexivity |].
  intro H. destruct (String.eqb_spec e x) as [-> | Hne].
  - elim H. now left.
  - rewrite IH; [reflexivity |]. intro Hin. apply H. now right.
Qed.

Lemma removeFirst_incl (e x : string) (l : list string) :
  In x (removeFirst e l) -> In x l.
Proof.
  induction l as [| y l IH]; simpl; [trivial |].
  destruct (String.eqb e y); simpl; [now right |].
  intros [H | H]; [now left | right; now apply IH].
Qed.

Lemma removeFirst_other (e x : string) (l : list string) :
  x <> e -> In x l -> In x (removeFirst e l).
Proof.
  intro Hne. induction l as [| y l IH]; simpl; [trivial |].
  destruct (String.eqb_spec e y) as [-> | Hy]; simpl.
  - intros [H | H]; [congruence | exact H].
  - intros [H | H]; [now left | right; now apply IH].
Qed.

Lemma removeFirst_gone (e : string) (l : list string) :
  NoDup l -> ~ In e (removeFirst e l).
Proof.
  induction l as [| y l IH]; simpl; [auto |].
  intro Hnd. inversion Hnd as [| ? ? Hy Hl]; subst.
  destruct (String.eqb_spec e y) as [-> | Hne]; [exact Hy |].
  simpl. intros [H | H]; [congruence | now apply IH].
Qed.

Lemma removeFirst_NoDup (e : string) (l : list string) :
  NoDup l -> NoDup (removeFirst e l).
Proof.
  induction l as [| y l IH]; simpl; [trivial |].
  intro Hnd. inversion Hnd as [| ? ? Hy Hl]; subst.
  destruct (String.eqb e y); [exact Hl |].
  constructor; [| now apply IH].
  intro Hin. apply Hy. now apply removeFirst_incl in Hin.
Qed.

Lemma removeFirst_last (e : string) (l : list string) :
  ~ In e l -> removeFirst e (l ++ [e])%list = l.
Proof.
  induction l as [| y l IH]; simpl.
  - intros _. now rewrite String.eqb_refl.
  - intro H. destruct (String.eqb_spec e y) as [-> | Hne].
    + elim H. now left.
    + rewrite IH; [reflexivity |]. intro Hin. apply H. now right.
Qed.

(** X1. A route guarded by [emailVal] never runs its handler on an email
    that is shorter than six characters after trimming or that is not an
    email: it answers 400 with the messages of the failed validators and
    leaves the world alone. This holds for [/add-mail] and [/remove-mail]. *)
Theorem emailVal_blocks_invalid (h : string -> M Reply) (now : Z)
        (feed : option (list CatalogEntry)) (raw : string) (w : World) :
  String.length (trim raw) < 6 \/ isEmail (trim raw) = false ->
  exists msg,
    (msg = "Invalid value" \/ msg = "Enter a valid email" \/
     msg = "Invalid value, Enter a valid email") /\
    serve (withEmailVal h raw) w = (Json 400 (BError msg), w) /\
    serve (addMail now feed raw) w = (Json 400 (BError msg), w) /\
    serve (removeMail raw) w = (Json 400 (BError msg), w).
Proof.
  intro Hbad. unfold addMail, removeMail, serve, withEmailVal, emailChain.
  destruct (Nat.leb_spec 6 (String.length (trim raw))) as [Hle | Hlt];
    destruct (isEmail (trim raw)) eqn:He; cbn [app checkValidation].
  - destruct Hbad as [Hbad | Hbad]; [lia | discriminate].
  - exists "Enter a valid email". repeat split; auto.
  - exists "Invalid value". repeat split; auto.
  - exists "Invalid value, Enter a valid email". repeat split; auto.
Qed.

(** X3. When the feed cannot be fetched, or the transporter rejects the
    welcome mail, [/add-mail] answers 500 although the valid, new email
    has already been stored. *)
Theorem addMail_failure_keeps_subscriber (now : Z) (games : list CatalogEntry)
        (raw : string) (w : World) :
  checkValidation (snd (emailChain raw)) = None ->
  ~ In (trim raw) (mailDB w) ->
  serve (addMail now None raw) w =
  (Json 500 (BError ("Can't add mail : " ++ libErrorText FetchError)),
   mkWorld (mailDB w ++ [trim raw])%list (gameDB w) (outbox w)) /\
  (forall g reason,
      pickGame now games = Some g ->
      transport (List.length (outbox w))
                (mailOptions (Addr (trim raw)) None None (Some (formatToHTML g))) = Some reason ->
      serve (addMail now (Some games) raw) w =
      (Json 500 (BError ("Can't add mail : Error: Can't send mail : "
                         ++ libErrorText (TransportError reason))),
       mkWorld (mailDB w ++ [trim raw])%list (gameDB w)
               (outbox w ++ [mailOptions (Addr (trim raw)) None None
                                         (Some (formatToHTML g))])%list)).
Proof.
  intros Hv Hnew. split.
  - now rewrite (addMail_new_cases now None raw w Hv Hnew).
  - intros g reason Hg Ht.
    rewrite (addMail_new_cases now (Some games) raw w Hv Hnew). cbv zeta.
    now rewrite Hg, Ht.
Qed.

(** X6. Subscribing a valid, new email and then unsubscribing it gives
    the mailing list back as it was, whatever [/add-mail] answered. *)
Theorem addMail_removeMail_round_trip (now : Z) (feed : option (list CatalogEntry))
        (raw : string) (w : World) :
  checkValidation (snd (emailChain raw)) = None ->
  ~ In (trim raw) (mailDB w) ->
  mailDB (snd (serve (removeMail raw) (snd (serve (addMail now feed raw) w)))) = mailDB w.
Proof.
  intros Hv Hnew.
  destruct (addMail_new_stored now feed raw w Hv Hnew) as [Hm _].
  rewrite (removeMail_run raw _ Hv). simpl. rewrite Hm.
  now apply removeFirst_last.
Qed.

(** X7. In a list without duplicates, unsubscribing a valid email and
    subscribing it again is never refused: the email ends up last in the
    list, after the other subscribers in their order. *)
Theorem removeMail_addMail_resubscribes (now : Z) (feed : option (list CatalogEntry))
        (raw : string) (w : World) :
  checkValidation (snd (emailChain raw)) = None ->
  NoDup (mailDB w) ->
  let run := serve (addMail now feed raw) (snd (serve (removeMail raw) w)) in
  mailDB (snd run) = (removeFirst (trim raw) (mailDB w) ++ [trim raw])%list /\
  forall msg, fst run <> Json 400 (BError msg).
Proof.
  intros Hv Hnd run. unfold run. rewrite (removeMail_run raw w Hv). cbn [snd].
  assert (Hnew : ~ In (trim raw)
                   (mailDB (mkWorld (removeFirst (trim raw) (mailDB w)) (gameDB w) (outbox w))))
    by (simpl; now apply removeFirst_gone).
  destruct (addMail_new_stored now feed raw _ Hv Hnew) as [Hm [_ Hno]].
  split; [exact Hm | exact Hno].
Qed.

(** X8. The subscribers stay distinct: neither [/add-mail] nor
    [/remove-mail] puts an email twice in a list that had no duplicates. *)
Theorem subscribers_stay_distinct (now : Z) (feed : option (list CatalogEntry))
        (raw : string) (w : World) :
  NoDup (mailDB w) ->
  NoDup (mailDB (snd (serve (addMail now feed raw) w))) /\
  NoDup (mailDB (snd (serve (removeMail raw) w))).
Proof.
  intro Hnd. split.
  - pose proof (addMail_subscribers_distinct now feed raw w Hnd) as H.
    unfold serve. now destruct (addMail now feed raw w) as [[r | t] w'].
  - destruct (checkValidation (snd (emailChain raw))) as [err |] eqn:Hv.
    + destruct (withEmailVal_invalid
                  (fun v => try_catch (deleteMail v ;;; ret (Json 200 (BMsg "Mail removed")))
                              (fun error => ret (Next (newAppError
                                 ("Can't remove the mail : " ++ render error) None))))
                  raw w err Hv) as [Hrun _].
      unfold serve, removeMail. now rewrite Hrun.
    + rewrite (removeMail_run raw w Hv). simpl. now apply removeFirst_NoDup.
Qed.

(** X9. [/add-mail] never touches the history, and it hands at most one
    mail to the transporter: a welcome mail whose [to] is the email that
    this very call has stored. *)
Theorem addMail_mails_only_the_new_subscriber (now : Z) (feed : option (list CatalogEntry))
        (raw : string) (w : World) :
  let w' := snd (serve (addMail now feed raw) w) in
  gameDB w' = gameDB w /\
  (outbox w' = outbox w \/
   exists m, outbox w' = (outbox w ++ [m])%list /\
             mo_to m = Some (trim raw) /\ mo_bcc m = None /\
             ~ In (trim raw) (mailDB w) /\
             mailDB w' = (mailDB w ++ [trim raw])%list).
Proof.
  intro w'. unfold w'.
  destruct (checkValidation (snd (emailChain raw))) as [err |] eqn:Hv.
  - destruct (withEmailVal_invalid (addMailHandler now feed) raw w err Hv) as [Hrun _].
    unfold serve, addMail. rewrite Hrun. simpl. auto.
  - destruct (hasMail (trim raw) (mailDB w)) eqn:Hh.
    + apply hasMail_In in Hh. unfold serve, addMail.
      rewrite (withEmailVal_valid _ raw Hv).
      rewrite (addMailHandler_present now feed (trim raw) w Hh). simpl. auto.
    + apply not_In_hasMail in Hh.
      rewrite (addMail_new_cases now feed raw w Hv Hh). cbv zeta.
      destruct feed as [games |]; [| simpl; auto].
      destruct (pickGame now games) as [g |]; [| simpl; auto].
      destruct (transport _ _); simpl; (split; [reflexivity |]); right;
        eexists; repeat split; trivial.
Qed.

End MailingList.

(** ** The cycle and the routes around it *)

Section Cycle.

Context {rt : Runtime}.

(** The facts of this section are about handlers on the store that
    answers every call, [reliable]. *)

Lemma sendToMailList_fetch_failed (now : Z) (w : World) :
  sendToMailList now None w =
  (Ok (Next (newAppError
               ("Can't send mails to mail list : " ++ libErrorText FetchError) None)), w).
Proof. reflexivity. Qed.

(** A second cycle on the same feed and clock leaves the world as the
    first one left it. *)
Lemma sendToMailList_settled (now : Z) (feed : option (list CatalogEntry)) (w : World) :
  snd (sendToMailList now feed (snd (sendToMailList now feed w))) =
  snd (sendToMailList now feed w).
Proof.
  destruct feed as [games |]; [| reflexivity].
  destruct (pickGame now games) as [g |] eqn:Hg.
  - destruct (sameGame g (hd_error (gameDB w))) eqn:Hs.
    + rewrite (sendToMailList_same now games w g Hg Hs). cbn [snd].
      now rewrite (sendToMailList_same now games w g Hg Hs).
    + destruct (gameRejected (gameDB w) g) as [e |] eqn:Hr.
      * rewrite (sendToMailList_rejected now games w g e Hg Hs Hr). cbn [snd].
        now rewrite (sendToMailList_rejected now games w g e Hg Hs Hr).
      * rewrite (sendToMailList_notify_world now games w g Hg Hs Hr).
        rewrite (sendToMailList_same now games _ g Hg); [reflexivity |].
        simpl. apply String.eqb_refl.
  - rewrite (sendToMailList_absent now games w Hg). cbn [snd].
    now rewrite (sendToMailList_absent now games w Hg).
Qed.


(** X12. The answers of [/send-to-mailList]: the request is left
    unanswered exactly when the feed was fetched and no game is free;
    every answer it does write is a 200 or a 500, and a feed that cannot
    be fetched gives a 500 with the world left alone. *)
Theorem cycle_reply_cases (now : Z) (feed : option (list CatalogEntry)) (w : World) :
  let run := serve (sendToMailList now feed) w in
  (fst run = NoReply <-> exists games, feed = Some games /\ pickGame now games = None) /\
  (forall status body, fst run = Json status body -> status = 200 \/ status = 500) /\
  (feed = None ->
   run = (Json 500 (BError ("Can't send mails to mail list : "
                            ++ libErrorText FetchError)), w)).
Proof.
  intro run. unfold run, serve.
  destruct feed as [games |].
  - destruct (pickGame now games) as [g |] eqn:Hg.
    + assert (Hrep : (exists w', sendToMailList now (Some games) w =
                                 (Ok (Json 200 (BMsg "Same game")), w')) \/
                     (exists w', sendToMailList now (Some games) w =
                                 (Ok (Json 200 (BName (game g))), w')) \/
                     (exists msg w', sendToMailList now (Some games) w =
                                     (Ok (Next (newAppError msg None)), w'))).
      { destruct (sameGame g (hd_error (gameDB w))) eqn:Hs.
        - left. eexists. now apply sendToMailList_same with (g := g).
        - right. destruct (gameRejected (gameDB w) g) as [e |] eqn:Hr.
          + right. do 2 eexists. now apply sendToMailList_rejected with (g := g) (e := e).
          + rewrite (sendToMailList_notify now games w g Hg Hs Hr).
            destruct (sendMail _ _ _ _ _) as [[x | t] w2]; [left | right]; eauto. }
      destruct Hrep as [[w' ->] | [[w' ->] | [msg [w' ->]]]]; simpl;
        (split; [split; [discriminate | intros [gs [E Hn]]; congruence] |]);
        (split; [| discriminate]);
        intros status body H; injection H as <- _; auto.
    + rewrite (sendToMailList_absent now games w Hg). simpl.
      split; [split; [eauto | reflexivity] |].
      split; [discriminate | discriminate].
  - rewrite sendToMailList_fetch_failed. simpl.
    split; [split; [discriminate | intros [gs [E _]]; discriminate] |].
    split; [| reflexivity].
    intros status body H. injection H as <- _. auto.
Qed.

(** X13. When the titles differ but the history refuses the fetched game
    (its title or its start date is empty, or its title is already
    somewhere in the history), the cycle answers 500, saves nothing and
    mails nobody. *)
Theorem cycle_rejected_save (now : Z) (games : list CatalogEntry) (w : World) (g : IGame) :
  pickGame now games = Some g ->
  sameGame g (hd_error (gameDB w)) = false ->
  game g = "" \/ startDate g = "" \/ (exists d, In d (gameDB w) /\ game d = game g) ->
  exists msg,
    serve (sendToMailList now (Some games)) w = (Json 500 (BError msg), w).
Proof.
  intros Hg Hs Hbad.
  destruct (gameRejected (gameDB w) g) as [e |] eqn:Hr.
  - unfold serve. rewrite (sendToMailList_rejected now games w g e Hg Hs Hr).
    simpl. eexists. reflexivity.
  - apply gameRejected_None in Hr. destruct Hr as [Ht [Hd Hh]].
    destruct Hbad as [H | [H | H]]; [contradiction | contradiction |].
    apply hasGame_In in H. congruence.
Qed.

(** X15. [sendMail] never touches the two collections and hands its one
    message to the transporter whatever happens; it returns "Mail sent"
    exactly when the transporter accepts, and otherwise throws an
    [AppError] with status 500. A missing or empty subject becomes
    "Free epic game"; any other subject is kept. *)
Theorem sendMail_contract (to : Recipients) (subject text html : option string) (w : World) :
  let m := mailOptions to subject text html in
  let run := sendMail to subject text html w in
  snd run = mkWorld (mailDB w) (gameDB w) (outbox w ++ [m])%list /\
  (transport (List.length (outbox w)) m = None <-> fst run = Ok "Mail sent") /\
  (forall reason,
      transport (List.length (outbox w)) m = Some reason ->
      fst run = Throw (ThrownApp (mkAppError
                  ("Can't send mail : " ++ libErrorText (TransportError reason)) 500))) /\
  (subject = None \/ subject = Some "" -> mo_subject m = "Free epic game") /\
  (forall s, subject = Some s -> s <> "" -> mo_subject m = s).
Proof.
  intros m run. unfold run. rewrite sendMail_run. cbv zeta. fold m.
  destruct (transport (List.length (outbox w)) m) as [reason |] eqn:Ht; simpl.
  - split; [reflexivity |]. split; [split; discriminate |].
    split; [intros r Hr; now injection Hr as <- |].
    split.
    + intros [-> | ->]; reflexivity.
    + intros s -> Hs. apply String.eqb_neq in Hs. unfold or_else, default_param.
      now rewrite Hs.
  - split; [reflexivity |]. split; [split; reflexivity |].
    split; [discriminate |].
    split.
    + intros [-> | ->]; reflexivity.
    + intros s -> Hs. apply String.eqb_neq in Hs. unfold or_else, default_param.
      now rewrite Hs.
Qed.

(** X16. Any number of cycles in a row on the same feed and clock leave
    the world as the first of them left it: at most one game is saved
    and at most one mail is sent, however often the route is called. *)
Theorem cycles_settle_after_one (n : nat) (now : Z) (feed : option (list CatalogEntry))
        (w : World) :
  cycles (S n) now feed w = snd (sendToMailList now feed w) /\
  List.length (outbox (cycles n now feed w)) <= S (List.length (outbox w)).
Proof.
  assert (Hone : forall k w0, cycles (S k) now feed w0 = snd (sendToMailList now feed w0)).
  { induction k as [| k IH]; intro w0; [reflexivity |].
    change (cycles (S (S k)) now feed w0)
      with (cycles (S k) now feed (snd (sendToMailList now feed w0))).
    rewrite IH. apply sendToMailList_settled. }
  split; [apply Hone |].
  destruct n as [| k]; [simpl; lia |].
  rewrite Hone.
  destruct (sendToMailList_world now feed w) as [-> | [g [_ ->]]]; simpl; [lia |].
  rewrite length_app. simpl. lia.
Qed.

End Cycle.

(** ** When the store rejects a call *)

Section StoreFaults.

Context {rt : Runtime} {st : Store}.

(** Every way through [/send-to-mailList] on a fetched feed, the calls
    that the store rejects included. *)
Lemma sendToMailList_cases (now : Z) (games : list CatalogEntry) (w : World) :
  sendToMailList now (Some games) w =
  let failed := fun t : Thrown =>
    Ok (Next (newAppError ("Can't send mails to mail list : " ++ render t) None)) in
  match pickGame now games with
  | None => (Ok NoReply, w)
  | Some g =>
      match storeFault FindLatestGame with
      | Some r => (failed (ThrownLib (StoreError r)), w)
      | None =>
          if sameGame g (hd_error (gameDB w)) then (Ok (Json 200 (BMsg "Same game")), w)
          else
            match storeFault SaveGame with
            | Some r => (failed (ThrownLib (StoreError r)), w)
            | None =>
                match gameRejected (gameDB w) g with
                | Some e => (failed (ThrownLib e), w)
                | None =>
                    let w1 := mkWorld (mailDB w) (g :: gameDB w) (outbox w) in
                    match storeFault FindAllMails with
                    | Some r => (failed (ThrownLib (StoreError r)), w1)
                    | None =>
                        match sendMail (Addrs (mailDB w)) None None
                                       (Some (formatToHTML g)) w1 with
                        | (Ok _, w2) => (Ok (Json 200 (BName (game g))), w2)
                        | (Throw t, w2) => (failed t, w2)
                        end
                    end
                end
            end
      end
  end.
Proof.
  unfold sendToMailList, try_catch at 1, bind, curGame, ret, findLatestGame,
    saveGame, findAllMails, awaitStore. cbv zeta.
  destruct (pickGame now games) as [[t sd ed] |]; [| reflexivity].
  destruct (storeFault FindLatestGame); [reflexivity |].
  destruct (sameGame _ _); [reflexivity |].
  destruct (storeFault SaveGame); [reflexivity |]. cbn [game startDate endDate].
  destruct (gameRejected _ _); [reflexivity |].
  destruct (storeFault FindAllMails); [reflexivity |]. cbn [mailDB gameDB outbox].
  destruct (sendMail _ _ _ _ _) as [[x | t'] w2]; reflexivity.
Qed.

(** Every way a valid email goes through [/add-mail]. *)
Lemma addMail_cases (now : Z) (feed : option (list CatalogEntry)) (raw : string) (w : World) :
  checkValidation (snd (emailChain raw)) = None ->
  serve (addMail now feed raw) w =
  let v := trim raw in
  let failed := fun e : LibError =>
    Json 500 (BError ("Can't add mail : " ++ libErrorText e)) in
  match storeFault FindMail with
  | Some r => (failed (StoreError r), w)
  | None =>
      if hasMail v (mailDB w)
      then (Json 400 (BError "Email already exist in the mailing list"), w)
      else
        match storeFault SaveMail with
        | Some r => (failed (StoreError r), w)
        | None =>
            let w1 := mkWorld (mailDB w ++ [v])%list (gameDB w) (outbox w) in
            match feed with
            | None => (failed FetchError, w1)
            | Some games =>
                match pickGame now games with
                | None => (Json 201 (BMsg "Email added to list"), w1)
                | Some g =>
                    let m := mailOptions (Addr v) None None (Some (formatToHTML g)) in
                    let w2 := mkWorld (mailDB w ++ [v])%list (gameDB w)
                                      (outbox w ++ [m])%list in
                    match transport (List.length (outbox w)) m with
                    | None => (Json 201 (BMsg "Email added to list"), w2)
                    | Some reason =>
                        (Json 500 (BError ("Can't add mail : Error: Can't send mail : "
                                           ++ libErrorText (TransportError reason))), w2)
                    end
                end
            end
        end
  end.
Proof.
  intro Hv. pose proof (valid_not_empty raw Hv) as Hne.
  apply String.eqb_neq in Hne.
  unfold serve, addMail. rewrite (withEmailVal_valid _ raw Hv). cbv zeta.
  unfold addMailHandler, try_catch at 1, bind, findMail, saveMail, mailRejected,
    curGame, ret, throw, awaitStore.
  destruct (storeFault FindMail); [reflexivity |].
  destruct (hasMail (trim raw) (mailDB w)) eqn:Hh.
  - destruct (find (String.eqb (trim raw)) (mailDB w)) eqn:Hf; [reflexivity |].
    apply findMail_hasMail in Hf. congruence.
  - rewrite (proj2 (findMail_hasMail _ _) Hh).
    destruct (storeFault SaveMail); [reflexivity |].
    rewrite Hne, Hh.
    destruct feed as [games |]; [| reflexivity].
    destruct (pickGame now games) as [g |]; [| reflexivity].
    rewrite sendMail_run. cbv zeta. cbn [mailDB gameDB outbox].
    destruct (transport _ _); reflexivity.
Qed.

(** X2. [/add-mail] answers 400 exactly when the email fails validation,
    or [findOne] answers and finds it; then nothing changes. When
    [findOne] or [save] is rejected it answers 500 and nothing is stored.
    When both answer and the valid email is new, the email is stored
    whatever the answer. *)
Theorem addMail_refused_or_stored (now : Z) (feed : option (list CatalogEntry))
        (raw : string) (w : World) :
  let run := serve (addMail now feed raw) w in
  ((exists msg, fst run = Json 400 (BError msg)) <->
   (checkValidation (snd (emailChain raw)) <> None \/
    (storeFault FindMail = None /\ In (trim raw) (mailDB w)))) /\
  ((exists msg, fst run = Json 400 (BError msg)) -> snd run = w) /\
  (checkValidation (snd (emailChain raw)) = None ->
   storeFault FindMail <> None \/
   (~ In (trim raw) (mailDB w) /\ storeFault SaveMail <> None) ->
   exists msg, run = (Json 500 (BError msg), w)) /\
  (checkValidation (snd (emailChain raw)) = None ->
   storeFault FindMail = None -> storeFault SaveMail = None ->
   ~ In (trim raw) (mailDB w) ->
   mailDB (snd run) = (mailDB w ++ [trim raw])%list).
Proof.
  intro run. unfold run.
  destruct (checkValidation (snd (emailChain raw))) as [err |] eqn:Hv.
  - destruct (withEmailVal_invalid (addMailHandler now feed) raw w err Hv) as [Hrun Hcode].
    assert (E : serve (addMail now feed raw) w = (Json 400 (BError (message err)), w)).
    { unfold serve, addMail. rewrite Hrun. simpl. now rewrite Hcode. }
    rewrite E. simpl.
    split; [split; [intros _; left; discriminate | intros _; eauto] |].
    split; [reflexivity |].
    split; discriminate.
  - rewrite (addMail_cases now feed raw w Hv). cbv zeta.
    destruct (storeFault FindMail) as [r |] eqn:Hfm.
    { simpl. split; [split; [intros [msg H]; discriminate |] |].
      - intros [H | [H _]]; [congruence | discriminate].
      - split; [reflexivity |]. split; [intros _ _; eauto | discriminate]. }
    destruct (hasMail (trim raw) (mailDB w)) eqn:Hh.
    { pose proof (proj1 (hasMail_In _ _) Hh) as Hin. simpl.
      split; [split; [intros _; right; auto | intros _; eauto] |].
      split; [reflexivity |].
      split.
      - intros _ [H | [H _]]; [congruence | contradiction].
      - intros _ _ _ H. contradiction. }
    pose proof (proj2 (not_In_hasMail _ _) Hh) as Hnew.
    destruct (storeFault SaveMail) as [r |] eqn:Hsm.
    { simpl. split; [split; [intros [msg H]; discriminate |] |].
      - intros [H | [_ H]]; [congruence | contradiction].
      - split; [reflexivity |]. split; [intros _ _; eauto | discriminate]. }
    destruct feed as [games |];
      [destruct (pickGame now games) as [g |];
       [destruct (transport (List.length (outbox w))
                    (mailOptions (Addr (trim raw)) None None (Some (formatToHTML g)))) |] |];
      simpl;
      (split;
       [split;
        [intros [msg H]; discriminate
        | intros [H | [_ H]]; [congruence | contradiction]]
       | split;
         [intros [msg H]; discriminate
         | split; [intros _ [H | [_ H]]; congruence | intros; reflexivity]]]).
Qed.

Lemma removeMail_cases (raw : string) (w : World) :
  checkValidation (snd (emailChain raw)) = None ->
  serve (removeMail raw) w =
  match storeFault DeleteMail with
  | Some r =>
      (Json 500 (BError ("Can't remove the mail : " ++ libErrorText (StoreError r))), w)
  | None =>
      (Json 200 (BMsg "Mail removed"),
       mkWorld (removeFirst (trim raw) (mailDB w)) (gameDB w) (outbox w))
  end.
Proof.
  intro Hv. unfold serve, removeMail. rewrite (withEmailVal_valid _ raw Hv).
  unfold deleteMail, awaitStore. unfold_monad.
  destruct (storeFault DeleteMail); reflexivity.
Qed.

(** X5. [/remove-mail] with a valid email: when [findOneAndDelete] is
    rejected the answer is 500 and nothing changes. When it answers, the
    reply is 200 whether or not the email was subscribed, and that email
    and no other is removed: nothing changes when it was not in the
    list, every other subscriber stays, and in a list without duplicates
    the email is gone afterwards. *)
Theorem removeMail_removes (raw : string) (w : World) :
  checkValidation (snd (emailChain raw)) = None ->
  let run := serve (removeMail raw) w in
  (forall reason,
      storeFault DeleteMail = Some reason ->
      run = (Json 500 (BError ("Can't remove the mail : "
                               ++ libErrorText (StoreError reason))), w)) /\
  (storeFault DeleteMail = None ->
   fst run = Json 200 (BMsg "Mail removed") /\
   gameDB (snd run) = gameDB w /\ outbox (snd run) = outbox w /\
   (~ In (trim raw) (mailDB w) -> snd run = w) /\
   (forall e, e <> trim raw -> (In e (mailDB (snd run)) <-> In e (mailDB w))) /\
   (NoDup (mailDB w) -> ~ In (trim raw) (mailDB (snd run)))).
Proof.
  intros Hv run. unfold run. rewrite (removeMail_cases raw w Hv).
  destruct (storeFault DeleteMail) as [r |].
  - split; [intros reason H; now injection H as <- | discriminate].
  - split; [discriminate |]. intros _. simpl.
    split; [reflexivity | split; [reflexivity | split; [reflexivity |]]].
    split; [| split].
    + intro Hnot. rewrite (removeFirst_absent _ _ Hnot). now destruct w.
    + intros e Hne. split; [apply removeFirst_incl | now apply removeFirst_other].
    + apply removeFirst_gone.
Qed.



(** X14. A cycle never touches the mailing list. Either it leaves the
    world alone, or it makes the fetched game the latest of the history;
    in that case exactly one mail, addressed to the whole list, is handed
    to the transporter, unless [mailList.find()] is rejected after the
    save: then the game is saved, nobody is mailed, and the cycle ends
    with an error passed to [next]. *)
Theorem cycle_saves_and_sends_together (now : Z) (feed : option (list CatalogEntry))
        (w : World) :
  let run := sendToMailList now feed w in
  mailDB (snd run) = mailDB w /\
  (snd run = w \/
   exists games g,
     feed = Some games /\ pickGame now games = Some g /\
     gameDB (snd run) = g :: gameDB w /\
     ((storeFault FindAllMails = None /\
       outbox (snd run) =
       (outbox w ++ [mailOptions (Addrs (mailDB w)) None None (Some (formatToHTML g))])%list)
      \/
      (exists reason,
          storeFault FindAllMails = Some reason /\
          outbox (snd run) = outbox w /\
          fst run =
          Ok (Next (newAppError ("Can't send mails to mail list : "
                                 ++ libErrorText (StoreError reason)) None))))).
Proof.
  intro run. unfold run.
  destruct feed as [games |]; [| simpl; auto].
  rewrite sendToMailList_cases. cbv zeta.
  destruct (pickGame now games) as [g |] eqn:Hg; [| simpl; auto].
  destruct (storeFault FindLatestGame); [simpl; auto |].
  destruct (sameGame g (hd_error (gameDB w))); [simpl; auto |].
  destruct (storeFault SaveGame); [simpl; auto |].
  destruct (gameRejected (gameDB w) g); [simpl; auto |].
  destruct (storeFault FindAllMails) as [reason |] eqn:Hfa.
  - simpl. split; [reflexivity |]. right. exists games, g.
    split; [reflexivity |]. split; [exact Hg |]. split; [reflexivity |].
    right. exists reason. auto.
  - rewrite sendMail_run. cbv zeta. cbn [mailDB gameDB outbox].
    destruct (transport _ _); simpl; (split; [reflexivity |]); right; exists games, g;
      (split; [reflexivity |]); (split; [exact Hg |]); (split; [reflexivity |]);
      left; auto.
Qed.

End StoreFaults.

Section TwoRequests.

Context {rt : Runtime}.

(** X4. After an [/add-mail] with a valid email whose [findOne] and
    [save] were answered, whatever it replied, a second call with the
    same email whose [findOne] is answered replies 400 "already exist"
    and changes nothing. The two requests may meet different faults. *)
Theorem addMail_twice_refused (st1 st2 : Store) (now now' : Z)
        (feed feed' : option (list CatalogEntry)) (raw : string) (w : World) :
  checkValidation (snd (emailChain raw)) = None ->
  storeFault (Store := st1) FindMail = None ->
  storeFault (Store := st1) SaveMail = None ->
  storeFault (Store := st2) FindMail = None ->
  let w1 := snd (serve (addMail (st := st1) now feed raw) w) in
  serve (addMail (st := st2) now' feed' raw) w1 =
  (Json 400 (BError "Email already exist in the mailing list"), w1).
Proof.
  intros Hv Hf1 Hs1 Hf2 w1.
  assert (Hin : hasMail (trim raw) (mailDB w1) = true).
  { apply hasMail_In. unfold w1.
    rewrite (addMail_cases (st := st1) now feed raw w Hv). cbv zeta. rewrite Hf1.
    destruct (hasMail (trim raw) (mailDB w)) eqn:Hh.
    - simpl. now apply hasMail_In.
    - rewrite Hs1.
      assert (Hlast : In (trim raw) (mailDB w ++ [trim raw])%list)
        by (apply in_or_app; right; now left).
      destruct feed as [games |]; [| exact Hlast].
      destruct (pickGame now games) as [g |]; [| exact Hlast].
      destruct (transport _ _); exact Hlast. }
  rewrite (addMail_cases (st := st2) now' feed' raw w1 Hv). cbv zeta.
  now rewrite Hf2, Hin.
Qed.




End TwoRequests.

(** ** The theorems at work on the sample runtime *)

Import Sample.

Lemma curGame_first_current_witness :
  Current (rt := accepting) now alpha /\
  curGame (rt := accepting) now (Some feedAlpha) fresh = (Ok (Some gAlpha), fresh).
Proof.
  assert (Ha : Current (rt := accepting) now alpha).
  { split; [discriminate |]. exists 1714662000000%Z. split; reflexivity. }
  split; [exact Ha |].
  apply (proj1 (proj2 (curGame_first_current (rt := accepting) now feedAlpha))
               [upcoming; paid] alpha [beta] eq_refl); [| exact Ha].
  intros x [<- | [<- | []]] [Hexp [t [Ht Hlt]]].
  - injection Ht as <-. discriminate Hlt.
  - now apply Hexp.
Defined.

Lemma sendMail_recipient_mode_witness :
  1 < List.length ["a@x.com"; "b@x.com"] /\
  mo_to (announcement ["a@x.com"; "b@x.com"] gAlpha) = None /\
  mo_bcc (announcement ["a@x.com"; "b@x.com"] gAlpha) = Some "a@x.com, b@x.com" /\
  mo_to (announcement ["a@x.com"] gAlpha) = Some "a@x.com" /\
  mo_bcc (announcement ["a@x.com"] gAlpha) = None.
Proof.
  assert (H : 1 < List.length ["a@x.com"; "b@x.com"]) by (simpl; lia).
  split; [exact H |].
  pose proof (proj2 (proj2 (sendMail_recipient_mode (rt := accepting)
                (Addrs ["a@x.com"; "b@x.com"]) None None (Some (formatToHTML gAlpha)) fresh))
              ["a@x.com"; "b@x.com"] eq_refl H) as [Hto Hbcc].
  pose proof (proj1 (proj2 (sendMail_recipient_mode (rt := accepting)
                (Addrs ["a@x.com"]) None None (Some (formatToHTML gAlpha)) fresh))
              "a@x.com" (or_introl eq_refl)) as [Hto1 Hbcc1].
  split; [exact Hto |]. split; [exact Hbcc |]. split; [exact Hto1 | exact Hbcc1].
Defined.

Lemma absent_game_no_action_witness :
  fst (curGame (rt := accepting) now (Some feedNone) afterBeta) = Ok None /\
  serve (cycle accepting now feedNone) afterBeta = (NoReply, afterBeta).
Proof.
  split; [reflexivity |].
  exact (absent_game_no_action (rt := accepting)
           now (Some feedNone) afterBeta eq_refl).
Defined.

Lemma title_decides_witness :
  fetched now feedAlpha = Some gAlpha /\
  hd_error (gameDB afterBeta) = Some gBeta /\
  game gAlpha <> game gBeta /\
  gameRejected (gameDB afterBeta) gAlpha = None /\
  snd (cycle accepting now feedAlpha afterBeta) =
  mkWorld ["a@x.com"; "b@x.com"] [gAlpha; gBeta] [announcement ["a@x.com"; "b@x.com"] gAlpha].
Proof.
  assert (Hne : game gAlpha <> game gBeta) by discriminate.
  do 4 (split; [first [reflexivity | exact Hne] |]).
  exact (proj2 (proj2 (title_decides (rt := accepting) now feedAlpha afterBeta gAlpha gBeta eq_refl eq_refl))
               Hne eq_refl).
Defined.

(** C1 fails as written: "Alpha" is free again after "Beta". The titles
    differ, but "Alpha" is already in the history, the unique index refuses
    it, and the cycle ends in a 500 with nothing saved and nothing mailed. *)
Lemma returning_title_not_announced :
  gameDB afterAlphaBeta = [gBetaNow; gAlpha] /\
  fetched now feedAlpha = Some gAlpha /\
  hd_error (gameDB afterAlphaBeta) = Some gBetaNow /\
  game gAlpha <> game gBetaNow /\
  serve (cycle accepting now feedAlpha) afterAlphaBeta =
  (Json 500 (BError
     "Can't send mails to mail list : MongoServerError: E11000 duplicate key error, game"),
   afterAlphaBeta) /\
  gameDB (snd (serve (cycle accepting now feedAlpha) afterAlphaBeta))
  <> gAlpha :: gameDB afterAlphaBeta /\
  outbox (snd (serve (cycle accepting now feedAlpha) afterAlphaBeta)) = outbox afterAlphaBeta.
Proof.
  repeat split; try reflexivity; discriminate.
Qed.

Lemma first_observation_notifies_witness :
  fetched now feedAlpha = Some gAlpha /\
  gameDB fresh = [] /\
  game gAlpha <> "" /\
  startDate gAlpha <> "" /\
  snd (cycle accepting now feedAlpha fresh) =
  mkWorld ["a@x.com"; "b@x.com"] [gAlpha] [announcement ["a@x.com"; "b@x.com"] gAlpha].
Proof.
  assert (Ht : game gAlpha <> "") by discriminate.
  assert (Hd : startDate gAlpha <> "") by discriminate.
  do 4 (split; [first [reflexivity | exact Ht | exact Hd] |]).
  exact (proj1 (first_observation_notifies (rt := accepting) now feedAlpha fresh gAlpha eq_refl eq_refl Ht Hd)).
Defined.

(** C6 fails as written: a feed entry with an empty title is fetched as a
    game, the history is empty, and the [required] validator of the schema
    refuses the save: nothing is saved and nothing is mailed. *)
Lemma untitled_game_not_saved :
  fetched now feedUntitled = Some (mkGame "" "2/5/2024" "9/5/2024") /\
  gameDB fresh = [] /\
  serve (cycle accepting now feedUntitled) fresh =
  (Json 500 (BError
     "Can't send mails to mail list : ValidationError: Path `game` is required."),
   fresh).
Proof.
  repeat split; reflexivity.
Qed.

Lemma cycle_twice_notifies_once_witness :
  fetched later feedAlpha = fetched now feedAlpha /\
  snd (cycle accepting later feedAlpha (snd (cycle accepting now feedAlpha afterBeta))) =
  snd (cycle accepting now feedAlpha afterBeta) /\
  fst (cycle accepting later feedAlpha (snd (cycle accepting now feedAlpha afterBeta))) =
  Ok (Json 200 (BMsg "Same game")) /\
  outbox (snd (cycle accepting later feedAlpha (snd (cycle accepting now feedAlpha afterBeta)))) =
  [announcement ["a@x.com"; "b@x.com"] gAlpha].
Proof.
  pose proof (cycle_twice_notifies_once (rt := accepting) now later feedAlpha afterBeta eq_refl) as [Hworld [_ Honce]].
  destruct (Honce gAlpha eq_refl eq_refl) as [Hreply Hout].
  split; [reflexivity |].
  split; [exact Hworld |].
  split; [exact Hreply | exact Hout].
Defined.

Lemma append_precedes_send_witness :
  fetched now feedAlpha = Some gAlpha /\
  fetched later feedAlpha = Some gAlpha /\
  sameGame gAlpha (hd_error (gameDB afterBeta)) = false /\
  gameRejected (gameDB afterBeta) gAlpha = None /\
  transport (Runtime := refusing) 0 (announcement ["a@x.com"; "b@x.com"] gAlpha) = Some "ECONNREFUSED" /\
  gameDB (snd (cycle refusing now feedAlpha afterBeta)) = [gAlpha; gBeta] /\
  cycle refusing later feedAlpha (snd (cycle refusing now feedAlpha afterBeta)) =
  (Ok (Json 200 (BMsg "Same game")), snd (cycle refusing now feedAlpha afterBeta)).
Proof.
  pose proof (append_precedes_send (rt := refusing) now later feedAlpha afterBeta gAlpha "ECONNREFUSED"
                eq_refl eq_refl eq_refl eq_refl eq_refl) as [_ [_ [Hsaved Hnext]]].
  do 5 (split; [reflexivity |]).
  split; [exact Hsaved | exact Hnext].
Defined.

Lemma empty_list_sent_in_to_mode_witness :
  mailDB noSubscribers = [] /\
  fetched now feedAlpha = Some gAlpha /\
  sameGame gAlpha (hd_error (gameDB noSubscribers)) = false /\
  gameRejected (gameDB noSubscribers) gAlpha = None /\
  mo_to (announcement [] gAlpha) = Some "" /\
  snd (cycle accepting now feedAlpha noSubscribers) =
  mkWorld [] [gAlpha; gBeta] [announcement [] gAlpha].
Proof.
  pose proof (empty_list_sent_in_to_mode (rt := accepting) None None (Some (formatToHTML gAlpha)) noSubscribers)
    as [Hto [_ [_ Hcycle]]].
  destruct (Hcycle now feedAlpha gAlpha eq_refl eq_refl eq_refl eq_refl) as [_ Hworld].
  do 4 (split; [reflexivity |]).
  split; [exact Hto | exact Hworld].
Defined.

Lemma duplicate_subscriber_rejected_witness :
  In "a@x.com" (mailDB fresh) /\
  trimSpaces "  a@x.com " = "a@x.com" /\
  checkValidation (snd (emailChain (rt := accepting) "  a@x.com ")) = None /\
  serve (subscribe now feedAlpha "  a@x.com ") fresh =
  (Json 400 (BError "Email already exist in the mailing list"), fresh).
Proof.
  assert (Hin : In "a@x.com" (mailDB fresh)) by (left; reflexivity).
  split; [exact Hin |]. split; [reflexivity |]. split; [reflexivity |].
  exact (proj2 (proj2 (duplicate_subscriber_rejected (rt := accepting) now (Some feedAlpha)
                         "a@x.com" fresh Hin) "  a@x.com " eq_refl) eq_refl).
Defined.

Lemma new_subscriber_added_witness :
  6 <= String.length (trimSpaces "  c@x.com ") /\
  hasAt (trimSpaces "  c@x.com ") = true /\
  ~ In (trimSpaces "  c@x.com ") (mailDB fresh) /\
  fetched now feedNone = None /\
  serve (subscribe now feedNone "  c@x.com ") fresh =
  (Json 201 (BMsg "Email added to list"), mkWorld ["a@x.com"; "b@x.com"; "c@x.com"] [] []).
Proof.
  assert (Hlen : 6 <= String.length (trimSpaces "  c@x.com ")) by (simpl; lia).
  assert (Hnew : ~ In (trimSpaces "  c@x.com ") (mailDB fresh)).
  { simpl. intros [H | [H | []]]; discriminate H. }
  split; [exact Hlen |]. split; [reflexivity |]. split; [exact Hnew |]. split; [reflexivity |].
  exact (proj1 (proj2 (proj2 (new_subscriber_added (rt := accepting) now feedNone
                                "  c@x.com " fresh Hlen eq_refl Hnew))) eq_refl).
Defined.


(** *** The further theorems on the sample runtime *)

Lemma rev1_formatDate_iso_witness :
  Rev1.formatDate "2024-05-02T15:00:00.000Z" = "02-05-2024".
Proof.
  exact (rev1_formatDate_iso "2024" "05" "02" "15:00:00.000Z"
           eq_refl eq_refl eq_refl eq_refl eq_refl eq_refl).
Defined.

Lemma emailVal_blocks_invalid_witness :
  String.length (trimSpaces " a@b ") < 6 /\
  exists msg,
    serve (subscribe now feedAlpha " a@b ") fresh = (Json 400 (BError msg), fresh).
Proof.
  assert (Hshort : String.length (trimSpaces " a@b ") < 6) by (simpl; lia).
  split; [exact Hshort |].
  destruct (emailVal_blocks_invalid (rt := accepting)
              (addMailHandler (rt := accepting) now (Some feedAlpha))
              now (Some feedAlpha) " a@b " fresh (or_introl Hshort))
    as [msg [_ [_ [Hadd _]]]].
  exists msg. exact Hadd.
Defined.

Lemma addMail_failure_keeps_subscriber_witness :
  checkValidation (snd (emailChain (rt := refusing) " c@x.com")) = None /\
  ~ In (trimSpaces " c@x.com") (mailDB fresh) /\
  serve (addMail (rt := refusing) now None " c@x.com") fresh =
  (Json 500 (BError "Can't add mail : TypeError: fetch failed"),
   mkWorld ["a@x.com"; "b@x.com"; "c@x.com"] [] []).
Proof.
  assert (Hnew : ~ In (trimSpaces " c@x.com") (mailDB fresh)).
  { simpl. intros [H | [H | []]]; discriminate H. }
  split; [reflexivity |]. split; [exact Hnew |].
  exact (proj1 (addMail_failure_keeps_subscriber (rt := refusing) now feedAlpha
                  " c@x.com" fresh eq_refl Hnew)).
Defined.

Lemma addMail_removeMail_round_trip_witness :
  checkValidation (snd (emailChain (rt := accepting) " c@x.com")) = None /\
  ~ In (trimSpaces " c@x.com") (mailDB fresh) /\
  mailDB (snd (serve (removeMail (rt := accepting) " c@x.com")
                     (snd (serve (subscribe now feedAlpha " c@x.com") fresh)))) =
  ["a@x.com"; "b@x.com"].
Proof.
  assert (Hnew : ~ In (trimSpaces " c@x.com") (mailDB fresh)).
  { simpl. intros [H | [H | []]]; discriminate H. }
  split; [reflexivity |]. split; [exact Hnew |].
  exact (addMail_removeMail_round_trip (rt := accepting) now (Some feedAlpha)
           " c@x.com" fresh eq_refl Hnew).
Defined.

Lemma removeMail_addMail_resubscribes_witness :
  checkValidation (snd (emailChain (rt := accepting) "a@x.com")) = None /\
  NoDup (mailDB fresh) /\
  mailDB (snd (serve (subscribe now feedNone "a@x.com")
                     (snd (serve (removeMail (rt := accepting) "a@x.com") fresh)))) =
  ["b@x.com"; "a@x.com"].
Proof.
  assert (Hnd : NoDup (mailDB fresh)).
  { simpl. repeat constructor; simpl; intuition discriminate. }
  split; [reflexivity |]. split; [exact Hnd |].
  exact (proj1 (removeMail_addMail_resubscribes (rt := accepting) now (Some feedNone)
                  "a@x.com" fresh eq_refl Hnd)).
Defined.

Lemma subscribers_stay_distinct_witness :
  NoDup (mailDB fresh) /\
  NoDup (mailDB (snd (serve (subscribe now feedAlpha " c@x.com") fresh))).
Proof.
  assert (Hnd : NoDup (mailDB fresh)).
  { simpl. repeat constructor; simpl; intuition discriminate. }
  split; [exact Hnd |].
  exact (proj1 (subscribers_stay_distinct (rt := accepting) now (Some feedAlpha)
                  " c@x.com" fresh Hnd)).
Defined.


Lemma cycle_reply_cases_witness :
  fetched now feedNone = None /\
  fst (serve (cycle accepting now feedNone) afterBeta) = NoReply.
Proof.
  split; [reflexivity |].
  exact (proj2 (proj1 (cycle_reply_cases (rt := accepting) now (Some feedNone) afterBeta))
               (ex_intro _ feedNone (conj eq_refl eq_refl))).
Defined.

Lemma cycle_rejected_save_witness :
  fetched now feedAlpha = Some gAlpha /\
  sameGame gAlpha (hd_error (gameDB afterAlphaBeta)) = false /\
  (exists d, In d (gameDB afterAlphaBeta) /\ game d = game gAlpha) /\
  exists msg,
    serve (cycle accepting now feedAlpha) afterAlphaBeta = (Json 500 (BError msg), afterAlphaBeta).
Proof.
  assert (Hold : exists d, In d (gameDB afterAlphaBeta) /\ game d = game gAlpha).
  { exists gAlpha. split; [right; left; reflexivity | reflexivity]. }
  do 2 (split; [reflexivity |]). split; [exact Hold |].
  exact (cycle_rejected_save (rt := accepting) now feedAlpha afterAlphaBeta gAlpha
           eq_refl eq_refl (or_intror (or_intror Hold))).
Defined.

Lemma sendMail_contract_witness :
  mo_subject (mailOptions (rt := accepting) (Addr "c@x.com") (Some "") None None) =
  "Free epic game" /\
  mo_subject (mailOptions (rt := accepting) (Addr "c@x.com") (Some "Hello") None None) =
  "Hello".
Proof.
  split.
  - exact (proj1 (proj2 (proj2 (proj2 (sendMail_contract (rt := accepting) (Addr "c@x.com")
                                          (Some "") None None fresh))))
                 (or_intror eq_refl)).
  - apply (proj2 (proj2 (proj2 (proj2 (sendMail_contract (rt := accepting) (Addr "c@x.com")
                                          (Some "Hello") None None fresh))))
                 "Hello" eq_refl).
    discriminate.
Defined.

Lemma sendToMailList_titles_distinct_witness :
  NoDup (map game (gameDB afterBeta)) /\
  NoDup (map game (gameDB (snd (cycle accepting now feedAlpha afterBeta)))).
Proof.
  assert (Hnd : NoDup (map game (gameDB afterBeta))).
  { simpl. repeat constructor. simpl. intuition. }
  split; [exact Hnd |].
  exact (sendToMailList_titles_distinct (rt := accepting) now (Some feedAlpha) afterBeta Hnd).
Defined.

(** C3 fails as written: an entry of the feed without an [expiryDate] key
    passes the filter, since [undefined !== null], and is returned as the
    current game with an invalid end date. *)
Lemma keyless_entry_kept :
  expiryDate keyless = Missing /\
  In keyless (currentFreeGames (rt := accepting) now [paid; keyless]) /\
  curGame (rt := accepting) now (Some [paid; keyless]) fresh =
  (Ok (Some (mkGame "Keyless" "2/5/2024" "Invalid Date")), fresh).
Proof.
  split; [reflexivity |]. split; [left; reflexivity | reflexivity].
Qed.

(** C4 fails as written: the feed is read against the clock. On the
    unchanged feed, a cycle at the millisecond at which "Upcoming" starts
    announces "Alpha", and a cycle one millisecond later announces
    "Upcoming": two mails. *)
Lemma unchanged_feed_announced_twice :
  fetched atStart feedAlpha = Some gAlpha /\
  fetched justAfter feedAlpha = Some (mkGame "Upcoming" "9/5/2024" "16/5/2024") /\
  fst (serve (cycle accepting atStart feedAlpha) afterBeta) = Json 200 (BName "Alpha") /\
  fst (serve (cycle accepting justAfter feedAlpha)
             (snd (cycle accepting atStart feedAlpha afterBeta))) =
  Json 200 (BName "Upcoming") /\
  List.length (outbox (snd (cycle accepting justAfter feedAlpha
                              (snd (cycle accepting atStart feedAlpha afterBeta))))) = 2.
Proof.
  repeat split; reflexivity.
Qed.

Lemma addMail_refused_or_stored_witness :
  checkValidation (snd (emailChain (rt := accepting) " c@x.com")) = None /\
  ~ In (trimSpaces " c@x.com") (mailDB fresh) /\
  storeFault (Store := rejecting SaveMail) SaveMail <> None /\
  exists msg,
    serve (addMail (rt := accepting) (st := rejecting SaveMail) now (Some feedAlpha) " c@x.com")
          fresh = (Json 500 (BError msg), fresh).
Proof.
  assert (Hnew : ~ In (trimSpaces " c@x.com") (mailDB fresh)).
  { simpl. intros [H | [H | []]]; discriminate H. }
  assert (Hdown : storeFault (Store := rejecting SaveMail) SaveMail <> None) by discriminate.
  split; [reflexivity |]. split; [exact Hnew |]. split; [exact Hdown |].
  exact (proj1 (proj2 (proj2 (addMail_refused_or_stored (rt := accepting)
                                (st := rejecting SaveMail) now (Some feedAlpha)
                                " c@x.com" fresh)))
               eq_refl (or_intror (conj Hnew Hdown))).
Defined.

Lemma addMail_twice_refused_witness :
  checkValidation (snd (emailChain (rt := accepting) " c@x.com")) = None /\
  storeFault (Store := reliable) FindMail = None /\
  storeFault (Store := reliable) SaveMail = None /\
  storeFault (Store := rejecting SaveMail) FindMail = None /\
  fst (serve (addMail (rt := accepting) (st := rejecting SaveMail) later (Some feedNone) " c@x.com")
             (snd (serve (subscribe now feedAlpha " c@x.com") fresh))) =
  Json 400 (BError "Email already exist in the mailing list").
Proof.
  do 4 (split; [reflexivity |]).
  exact (f_equal fst (addMail_twice_refused (rt := accepting) reliable (rejecting SaveMail)
                        now later (Some feedAlpha) (Some feedNone) " c@x.com" fresh
                        eq_refl eq_refl eq_refl eq_refl)).
Defined.

Lemma removeMail_removes_witness :
  checkValidation (snd (emailChain (rt := accepting) "a@x.com ")) = None /\
  storeFault (Store := rejecting DeleteMail) DeleteMail = Some "connection lost" /\
  serve (removeMail (rt := accepting) (st := rejecting DeleteMail) "a@x.com ") fresh =
  (Json 500 (BError "Can't remove the mail : MongooseError: connection lost"), fresh) /\
  storeFault (Store := reliable) DeleteMail = None /\
  NoDup (mailDB fresh) /\
  ~ In (trimSpaces "a@x.com ")
       (mailDB (snd (serve (removeMail (rt := accepting) (st := reliable) "a@x.com ") fresh))).
Proof.
  assert (Hnd : NoDup (mailDB fresh)).
  { simpl. repeat constructor; simpl; intuition discriminate. }
  split; [reflexivity |]. split; [reflexivity |].
  split.
  - exact (proj1 (removeMail_removes (rt := accepting) (st := rejecting DeleteMail)
                    "a@x.com " fresh eq_refl) "connection lost" eq_refl).
  - split; [reflexivity |]. split; [exact Hnd |].
    destruct (proj2 (removeMail_removes (rt := accepting) (st := reliable)
                       "a@x.com " fresh eq_refl) eq_refl)
      as [_ [_ [_ [_ [_ Hgone]]]]].
    exact (Hgone Hnd).
Defined.


